(** * analyze_codebase.py: signature extraction and per-file traversal

    A shallow embedding of
    [skills/project-documentation/scripts/analyze_codebase.py]:
    [PATTERNS], [LANGUAGE_MAP], [get_language], [extract_functions] and the
    body of the loop over files in [generate_tree].

    Python [str] values are sequences of Unicode code points; a code point
    is an [N] and a string a [list N].  The pattern texts of [PATTERNS] are
    compiled to syntax trees by [re_compile] and run by a backtracking
    matcher that follows the priorities of Python's [re] engine: ordered
    alternation, greedy and lazy single-character repeats, greedy optional
    groups, captures undone on backtracking, and the scan of
    [re.finditer].  Exceptions are outcomes: the iterator of matches may
    raise, and so may the calls on the file system. *)

From Stdlib Require Import String Ascii.
From Stdlib Require Import List NArith Arith Bool Lia.
From Stdlib Require Import Permutation Sorted.
Import ListNotations.

Local Open Scope N_scope.

(** ** Python strings *)

Definition pystr := list N.

(** A literal of the source, for ASCII text. *)
Definition py (s : string) : pystr :=
  map N_of_ascii (list_ascii_of_string s).
Arguments py s%_string.

(** The code point of an ASCII character. *)
Definition ch (a : ascii) : N := N_of_ascii a.
Arguments ch a%_char.

Definition pystr_eqb (a b : pystr) : bool :=
  if list_eq_dec N.eq_dec a b then true else false.

(** [x in xs] for a list or a set of strings. *)
Definition py_in (x : pystr) (xs : list pystr) : bool :=
  existsb (pystr_eqb x) xs.

(** [dict.get] on a dictionary given by its items. *)
Fixpoint dict_get {V : Type} (d : list (pystr * V)) (k : pystr) : option V :=
  match d with
  | [] => None
  | (k', v) :: d' => if pystr_eqb k k' then Some v else dict_get d' k
  end.

(** [Py_UNICODE_ISSPACE]: the whitespace of [str.strip], [str.split] and of
    the [\s] class of a [str] pattern. *)
Definition isspace (c : N) : bool :=
  ((9 <=? c) && (c <=? 13)) || ((28 <=? c) && (c <=? 32))
  || (c =? 133) || (c =? 160) || (c =? 5760)
  || ((8192 <=? c) && (c <=? 8202))
  || (c =? 8232) || (c =? 8233) || (c =? 8239) || (c =? 8287)
  || (c =? 12288).

Fixpoint lstrip (s : pystr) : pystr :=
  match s with
  | c :: s' => if isspace c then lstrip s' else s
  | [] => []
  end.

Definition rstrip (s : pystr) : pystr := rev (lstrip (rev s)).

(** [s.strip()] *)
Definition strip (s : pystr) : pystr := rstrip (lstrip s).

(** [s.split()]: the maximal runs of non-whitespace, in order.  [cur] is the
    word being read, most recent character first. *)
Fixpoint split_from (cur : pystr) (s : pystr) : list pystr :=
  match s with
  | [] => match cur with [] => [] | _ => [rev cur] end
  | c :: s' =>
      if isspace c
      then match cur with
           | [] => split_from [] s'
           | _ => rev cur :: split_from [] s'
           end
      else split_from (c :: cur) s'
  end.

Definition split (s : pystr) : list pystr := split_from [] s.

(** [sep.join(ws)] *)
Fixpoint join (sep : pystr) (ws : list pystr) : pystr :=
  match ws with
  | [] => []
  | [w] => w
  | w :: ws' => w ++ sep ++ join sep ws'
  end.

(** [" ".join(s.split())], the clean-up of lines 95-96. *)
Definition collapse (s : pystr) : pystr := join [ch " "] (split s).

(** A word: not empty and free of whitespace. *)
Definition nospaceb (w : pystr) : bool :=
  forallb (fun c => negb (isspace c)) w.

Definition good (w : pystr) : Prop := w <> [] /\ nospaceb w = true.

(** ** Regular expressions *)

(** An item of a bracketed class; [CWord] is [\w] and [CSpace] is [\s]. *)
Inductive citem :=
| CChar (c : N)
| CRange (lo hi : N)
| CSpace
| CWord.

(** [[...]] or [[^...]]; a lone escape or [.] is a class too. *)
Record cclass := { negated : bool; items : list citem }.

(** Syntax of the patterns.  Every [*], [+] and [*?] of [PATTERNS] applies
    to one character class, every [?] to a group. *)
Inductive regex :=
| Lit (l : pystr)
| Chr (cl : cclass)
| Rep (greedy : bool) (min : nat) (cl : cclass)
| Cat (r1 r2 : regex)
| Alt (r1 r2 : regex)
| Opt (r : regex)
| Group (n : nat) (r : regex).

Declare Scope regex_scope.
Delimit Scope regex_scope with re.
Bind Scope regex_scope with regex.
Infix "@@" := Cat (at level 60, right associativity) : regex_scope.
Infix "|:" := Alt (at level 65, right associativity) : regex_scope.

(** The captures of a match, as [match.groups()] lists them: position [i]
    holds group [i+1], [None] while the group took no part. *)
Definition captures := list (option pystr).

Fixpoint set_nth {A : Type} (n : nat) (x : A) (l : list A) : list A :=
  match n, l with
  | O, _ :: l' => x :: l'
  | S n', y :: l' => y :: set_nth n' x l'
  | _, [] => []
  end.

(** What a match that started at [s] and stands at the suffix [s'] has
    consumed. *)
Definition consumed (s s' : pystr) : pystr :=
  firstn (length s - length s') s.

Fixpoint strip_prefix (l s : pystr) : option pystr :=
  match l, s with
  | [], _ => Some s
  | x :: l', y :: s' => if x =? y then strip_prefix l' s' else None
  | _ :: _, [] => None
  end.

Section Engine.

(** [Py_UNICODE_ISALNUM], the table of the Unicode database behind [\w]. *)
Variable uni_isalnum : N -> bool.

Definition in_item (c : N) (it : citem) : bool :=
  match it with
  | CChar x => c =? x
  | CRange lo hi => (lo <=? c) && (c <=? hi)
  | CSpace => isspace c
  | CWord => uni_isalnum c || (c =? ch "_")
  end.

Definition in_class (cl : cclass) (c : N) : bool :=
  xorb (negated cl) (existsb (in_item c) (items cl)).

Section Matcher.
Variable A : Type.

(** Greedy repeat: take a character while one fits, hand over to the
    rest of the pattern at the longest run first. *)
Fixpoint rep_greedy (cl : cclass) (min : nat) (s : pystr) (c : captures)
    (k : pystr -> captures -> option A) : option A :=
  let here := match min with O => k s c | S _ => None end in
  match s with
  | x :: s' =>
      if in_class cl x
      then match rep_greedy cl (pred min) s' c k with
           | Some a => Some a
           | None => here
           end
      else here
  | [] => here
  end.

(** Lazy repeat: hand over as soon as [min] is reached, take one more
    character when the rest fails. *)
Fixpoint rep_lazy (cl : cclass) (min : nat) (s : pystr) (c : captures)
    (k : pystr -> captures -> option A) : option A :=
  let more :=
    match s with
    | x :: s' => if in_class cl x then rep_lazy cl (pred min) s' c k
                 else None
    | [] => None
    end in
  match min with
  | O => match k s c with Some a => Some a | None => more end
  | S _ => more
  end.

(** [rmatch r s c k]: match [r] at [s] with captures [c], then the rest
    of the pattern [k]; [None] makes the caller backtrack. *)
Fixpoint rmatch (r : regex) (s : pystr) (c : captures)
    (k : pystr -> captures -> option A) : option A :=
  match r with
  | Lit l => match strip_prefix l s with
             | Some s' => k s' c
             | None => None
             end
  | Chr cl => match s with
              | x :: s' => if in_class cl x then k s' c else None
              | [] => None
              end
  | Rep true min cl => rep_greedy cl min s c k
  | Rep false min cl => rep_lazy cl min s c k
  | Cat r1 r2 => rmatch r1 s c (fun s' c' => rmatch r2 s' c' k)
  | Alt r1 r2 => match rmatch r1 s c k with
                 | Some a => Some a
                 | None => rmatch r2 s c k
                 end
  | Opt r1 => match rmatch r1 s c k with
              | Some a => Some a
              | None => k s c
              end
  | Group n r1 =>
      rmatch r1 s c (fun s' c' => k s' (set_nth n (Some (consumed s s')) c'))
  end.
End Matcher.
Arguments rep_greedy {A}.
Arguments rep_lazy {A}.
Arguments rmatch {A}.

(** Number of groups of a pattern. *)
Fixpoint ngroups (r : regex) : nat :=
  match r with
  | Lit _ | Chr _ | Rep _ _ _ => 0
  | Cat r1 r2 | Alt r1 r2 => Nat.max (ngroups r1) (ngroups r2)
  | Opt r1 => ngroups r1
  | Group n r1 => Nat.max (S n) (ngroups r1)
  end.

(** One attempt at position [s].  With [must_advance] an empty match is
    refused at the point of success, and the engine backtracks. *)
Definition match_at (r : regex) (must_advance : bool) (s : pystr)
    : option (pystr * captures) :=
  rmatch r s (repeat None (ngroups r))
    (fun s' c' =>
       if must_advance && (length s' =? length s)%nat then None
       else Some (s', c')).

(** [scanner.search]: the first position from [s] on where the pattern
    matches; [must_advance] holds for the first position only. *)
Fixpoint search (r : regex) (must_advance : bool) (s : pystr)
    : option (pystr * pystr * captures) :=
  match match_at r must_advance s with
  | Some (s', c) => Some (s, s', c)
  | None => match s with
            | [] => None
            | _ :: t => search r false t
            end
  end.

(** The matches of [re.finditer], in order, each as its [groups()].  After
    a match the scan resumes where it ended, and an empty match sets
    [must_advance]. *)
Fixpoint finditer_from (fuel : nat) (r : regex) (must_advance : bool)
    (s : pystr) : list captures :=
  match fuel with
  | O => []
  | S fuel' =>
      match search r must_advance s with
      | None => []
      | Some (s0, s', c) =>
          c :: finditer_from fuel' r (length s' =? length s0)%nat s'
      end
  end.

Definition re_finditer (r : regex) (content : pystr) : list captures :=
  finditer_from (2 * length content + 2) r false content.

End Engine.

Arguments rep_greedy uni_isalnum {A}.
Arguments rep_lazy uni_isalnum {A}.
Arguments rmatch uni_isalnum {A}.

(** ** Pattern syntax *)

Definition cls (its : list citem) : cclass :=
  {| negated := false; items := its |}.
Definition ncls (its : list citem) : cclass :=
  {| negated := true; items := its |}.

(** [\s] *)
Definition space : cclass := cls [CSpace].
(** [.] under [re.DOTALL]: any character. *)
Definition dot : cclass := ncls [].

Definition is_ascii_alnum (c : N) : bool :=
  ((ch "a" <=? c) && (c <=? ch "z")) || ((ch "A" <=? c) && (c <=? ch "Z"))
  || ((ch "0" <=? c) && (c <=? ch "9")).

(** The characters with a meaning of their own in a pattern. *)
Definition is_special (c : N) : bool :=
  existsb (N.eqb c) (py "*+?{}[]^$\.|()").

(** The items of a bracketed class up to its ["]"]. *)
Fixpoint parse_class (s : pystr) : option (list citem * pystr) :=
  match s with
  | [] => None
  | c :: s1 =>
      if c =? ch "]" then Some ([], s1)
      else if c =? ch "\" then
        match s1 with
        | e :: s2 =>
            let it := if e =? ch "s" then Some CSpace
                      else if e =? ch "w" then Some CWord
                      else if is_ascii_alnum e then None
                      else Some (CChar e) in
            match it, parse_class s2 with
            | Some i, Some (its, rest) => Some (i :: its, rest)
            | _, _ => None
            end
        | [] => None
        end
      else
        match s1 with
        | d :: hi :: s3 =>
            if (d =? ch "-") && negb (hi =? ch "]") && negb (hi =? ch "\") then
              match parse_class s3 with
              | Some (its, rest) => Some (CRange c hi :: its, rest)
              | None => None
              end
            else
              match parse_class s1 with
              | Some (its, rest) => Some (CChar c :: its, rest)
              | None => None
              end
        | _ =>
            match parse_class s1 with
            | Some (its, rest) => Some (CChar c :: its, rest)
            | None => None
            end
        end
  end.

(** A repeat applies to one character: a class, or a literal character. *)
Definition mkrep (greedy : bool) (min : nat) (r : regex) : option regex :=
  match r with
  | Chr cl => Some (Rep greedy min cl)
  | Lit [c] => Some (Rep greedy min (cls [CChar c]))
  | _ => None
  end.

(** The quantifier after an atom, if any. *)
Definition parse_quant (r : regex) (s : pystr) : option (regex * pystr) :=
  match s with
  | q :: s1 =>
      if q =? ch "*" then
        match s1 with
        | l :: s2 =>
            if l =? ch "?"
            then option_map (fun r' => (r', s2)) (mkrep false 0 r)
            else option_map (fun r' => (r', s1)) (mkrep true 0 r)
        | [] => option_map (fun r' => (r', s1)) (mkrep true 0 r)
        end
      else if q =? ch "+" then
        match s1 with
        | l :: s2 =>
            if l =? ch "?"
            then option_map (fun r' => (r', s2)) (mkrep false 1 r)
            else option_map (fun r' => (r', s1)) (mkrep true 1 r)
        | [] => option_map (fun r' => (r', s1)) (mkrep true 1 r)
        end
      else if q =? ch "?" then
        match s1 with
        | l :: _ => if l =? ch "?" then None else Some (Opt r, s1)
        | [] => Some (Opt r, s1)
        end
      else Some (r, s)
  | [] => Some (r, s)
  end.

(** Concatenation; literal text that follows literal text joins it. *)
Definition mkcat (r1 r2 : regex) : regex :=
  match r1, r2 with
  | _, Lit [] => r1
  | Lit a, Lit b => Lit (a ++ b)
  | Lit a, Cat (Lit b) r => Cat (Lit (a ++ b)) r
  | _, _ => Cat r1 r2
  end.

(** The parser: alternatives, sequences and atoms.  [n] is the index that
    the next capturing group gets, in the order of the opening brackets. *)
Fixpoint parse_alt (fuel : nat) (n : nat) (s : pystr)
    : option (regex * nat * pystr) :=
  match fuel with
  | O => None
  | S fuel' =>
      match parse_seq fuel' n s with
      | Some (r1, n1, c :: s1) =>
          if c =? ch "|" then
            match parse_alt fuel' n1 s1 with
            | Some (r2, n2, s2) => Some (Alt r1 r2, n2, s2)
            | None => None
            end
          else Some (r1, n1, c :: s1)
      | other => other
      end
  end
with parse_seq (fuel : nat) (n : nat) (s : pystr)
    : option (regex * nat * pystr) :=
  match fuel with
  | O => None
  | S fuel' =>
      match s with
      | [] => Some (Lit [], n, s)
      | c :: _ =>
          if (c =? ch "|") || (c =? ch ")") then Some (Lit [], n, s)
          else
            match parse_atom fuel' n s with
            | Some (a, n1, s1) =>
                match parse_quant a s1 with
                | Some (p, s2) =>
                    match parse_seq fuel' n1 s2 with
                    | Some (r, n2, s3) => Some (mkcat p r, n2, s3)
                    | None => None
                    end
                | None => None
                end
            | None => None
            end
      end
  end
with parse_atom (fuel : nat) (n : nat) (s : pystr)
    : option (regex * nat * pystr) :=
  match fuel with
  | O => None
  | S fuel' =>
      match strip_prefix (py "(?:") s, strip_prefix (py "(?") s,
            strip_prefix (py "(") s with
      | Some s1, _, _ =>
          match parse_alt fuel' n s1 with
          | Some (r, n1, e :: s2) =>
              if e =? ch ")" then Some (r, n1, s2) else None
          | _ => None
          end
      | None, Some _, _ => None
      | None, None, Some s1 =>
          match parse_alt fuel' (S n) s1 with
          | Some (r, n1, e :: s2) =>
              if e =? ch ")" then Some (Group n r, n1, s2) else None
          | _ => None
          end
      | None, None, None =>
          match strip_prefix (py "[^") s, strip_prefix (py "[") s with
          | Some s1, _ =>
              match parse_class s1 with
              | Some (its, s2) => Some (Chr (ncls its), n, s2)
              | None => None
              end
          | None, Some s1 =>
              match parse_class s1 with
              | Some (its, s2) => Some (Chr (cls its), n, s2)
              | None => None
              end
          | None, None =>
              match s with
              | [] => None
              | c :: s1 =>
                  if c =? ch "\" then
                    match s1 with
                    | e :: s2 =>
                        if e =? ch "s" then Some (Chr space, n, s2)
                        else if e =? ch "w" then Some (Chr (cls [CWord]), n, s2)
                        else if is_ascii_alnum e then None
                        else Some (Lit [e], n, s2)
                    | [] => None
                    end
                  else if c =? ch "." then Some (Chr dot, n, s1)
                  else if is_special c then None
                  else Some (Lit [c], n, s1)
              end
          end
      end
  end.

(** [re.compile(pattern, re.MULTILINE | re.DOTALL)] for the syntax that
    [PATTERNS] uses; [None] is [re.error].  None of the patterns has an
    anchor, so [re.MULTILINE] changes nothing. *)
Definition re_compile (pattern : pystr) : option regex :=
  match parse_alt (4 * length pattern + 4) 0 pattern with
  | Some (r, _, []) => Some r
  | _ => None
  end.

(** ** The registry: [PATTERNS] and [LANGUAGE_MAP] *)

Definition PATTERNS : list (pystr * pystr) :=
  [ (py "python",
     py "def\s+([a-zA-Z_][a-zA-Z0-9_]*)\s*\((.*?)\)(?:\s*->\s*(.*?))?:");
    (py "javascript",
     py "(?:function\s+([a-zA-Z_][a-zA-Z0-9_]*)\s*\((.*?)\)|const\s+([a-zA-Z_][a-zA-Z0-9_]*)\s*=\s*(?:async\s*)?\((.*?)\)\s*=>|([a-zA-Z_][a-zA-Z0-9_]*)\s*\((.*?)\)\s*\{)");
    (py "typescript",
     py "(?:function\s+([a-zA-Z_][a-zA-Z0-9_]*)\s*\((.*?)\)|const\s+([a-zA-Z_][a-zA-Z0-9_]*)\s*=\s*(?:async\s*)?\((.*?)\)\s*=>|([a-zA-Z_][a-zA-Z0-9_]*)\s*\((.*?)\)\s*\{)");
    (py "rust",
     py "fn\s+([a-zA-Z_][a-zA-Z0-9_]*)\s*(?:<.*?>)?\s*\((.*?)\)(?:\s*->\s*(.*?))?\s*\{");
    (py "go",
     py "func\s+([a-zA-Z_][a-zA-Z0-9_]*)\s*\((.*?)\)\s*(.*?)?\{");
    (py "dart",
     py "(?:[a-zA-Z0-9_<>]+)\s+([a-zA-Z_][a-zA-Z0-9_]*)\s*\((.*?)\)\s*(?:async)?\s*\{");
    (py "java",
     py "(?:public|protected|private|static|\s) +[\w\<\>\[\]]+\s+([a-zA-Z0-9_]+)\s*\(([^)]*)\)\s*(?:throws\s.*?)?\{");
    (py "kotlin",
     py "fun\s+([a-zA-Z0-9_]+)\s*\(([^)]*)\)(?:\s*:\s*[a-zA-Z0-9_<>]+)?\s*\{");
    (py "swift",
     py "func\s+([a-zA-Z0-9_]+)\s*\(([^)]*)\)(?:\s*->\s*[a-zA-Z0-9_<>]+)?\s*\{");
    (py "c",
     py "([a-zA-Z0-9_]+)\s+([a-zA-Z0-9_]+)\s*\(([^)]*)\)\s*\{");
    (py "cpp",
     py "([a-zA-Z0-9_]+)\s+([a-zA-Z0-9_]+)\s*\(([^)]*)\)\s*(?:const)?\s*\{");
    (py "php",
     py "function\s+([a-zA-Z0-9_]+)\s*\(([^)]*)\)\s*(?::\s*[a-zA-Z0-9_<>]+)?\s*\{") ].

(** *** The syntax trees of the patterns *)

Definition az := CRange (ch "a") (ch "z").
Definition AZ := CRange (ch "A") (ch "Z").
Definition d09 := CRange (ch "0") (ch "9").
Definition us := CChar (ch "_").

(** [[a-zA-Z_]], [[a-zA-Z0-9_]], [[a-zA-Z0-9_<>]], [[^)]], [[\w\<\>\[\]]]
    and the blank. *)
Definition id_start : cclass := cls [az; AZ; us].
Definition id_char : cclass := cls [az; AZ; d09; us].
Definition ty_char : cclass :=
  cls [az; AZ; d09; us; CChar (ch "<"); CChar (ch ">")].
Definition not_rparen : cclass := ncls [CChar (ch ")")].
Definition java_ty_char : cclass :=
  cls [CWord; CChar (ch "<"); CChar (ch ">"); CChar (ch "["); CChar (ch "]")].
Definition blank : cclass := cls [CChar (ch " ")].

Definition L (s : string) : regex := Lit (py s).
Arguments L s%_string.

(** [\s+], [\s*], [.*?], [[a-zA-Z_][a-zA-Z0-9_]*], [[a-zA-Z0-9_]+] and
    [[^)]*]. *)
Definition sp1 : regex := Rep true 1 space.
Definition sp0 : regex := Rep true 0 space.
Definition lazy_any : regex := Rep false 0 dot.
Definition ident : regex := (Chr id_start @@ Rep true 0 id_char)%re.
Definition word1 : regex := Rep true 1 id_char.
Definition params : regex := Rep true 0 not_rparen.

Local Open Scope regex_scope.

Definition pat_python : regex :=
  L "def" @@ sp1 @@ Group 0 ident @@ sp0 @@ L "(" @@ Group 1 lazy_any @@ L ")"
  @@ Opt (sp0 @@ L "->" @@ sp0 @@ Group 2 lazy_any) @@ L ":".

Definition pat_javascript : regex :=
  (L "function" @@ sp1 @@ Group 0 ident @@ sp0 @@ L "(" @@ Group 1 lazy_any
     @@ L ")")
  |: (L "const" @@ sp1 @@ Group 2 ident @@ sp0 @@ L "=" @@ sp0
        @@ Opt (L "async" @@ sp0) @@ L "(" @@ Group 3 lazy_any @@ L ")" @@ sp0
        @@ L "=>")
  |: (Group 4 ident @@ sp0 @@ L "(" @@ Group 5 lazy_any @@ L ")" @@ sp0
        @@ L "{").

Definition pat_rust : regex :=
  L "fn" @@ sp1 @@ Group 0 ident @@ sp0 @@ Opt (L "<" @@ lazy_any @@ L ">")
  @@ sp0 @@ L "(" @@ Group 1 lazy_any @@ L ")"
  @@ Opt (sp0 @@ L "->" @@ sp0 @@ Group 2 lazy_any) @@ sp0 @@ L "{".

Definition pat_go : regex :=
  L "func" @@ sp1 @@ Group 0 ident @@ sp0 @@ L "(" @@ Group 1 lazy_any @@ L ")"
  @@ sp0 @@ Opt (Group 2 lazy_any) @@ L "{".

Definition pat_dart : regex :=
  Rep true 1 ty_char @@ sp1 @@ Group 0 ident @@ sp0 @@ L "(" @@ Group 1 lazy_any
  @@ L ")" @@ sp0 @@ Opt (L "async") @@ sp0 @@ L "{".

Definition pat_java : regex :=
  (L "public" |: L "protected" |: L "private" |: L "static" |: Chr space)
  @@ Rep true 1 blank @@ Rep true 1 java_ty_char @@ sp1 @@ Group 0 word1 @@ sp0
  @@ L "(" @@ Group 1 params @@ L ")" @@ sp0
  @@ Opt (L "throws" @@ Chr space @@ lazy_any) @@ L "{".

Definition pat_kotlin : regex :=
  L "fun" @@ sp1 @@ Group 0 word1 @@ sp0 @@ L "(" @@ Group 1 params @@ L ")"
  @@ Opt (sp0 @@ L ":" @@ sp0 @@ Rep true 1 ty_char) @@ sp0 @@ L "{".

Definition pat_swift : regex :=
  L "func" @@ sp1 @@ Group 0 word1 @@ sp0 @@ L "(" @@ Group 1 params @@ L ")"
  @@ Opt (sp0 @@ L "->" @@ sp0 @@ Rep true 1 ty_char) @@ sp0 @@ L "{".

Definition pat_c : regex :=
  Group 0 word1 @@ sp1 @@ Group 1 word1 @@ sp0 @@ L "(" @@ Group 2 params
  @@ L ")" @@ sp0 @@ L "{".

Definition pat_cpp : regex :=
  Group 0 word1 @@ sp1 @@ Group 1 word1 @@ sp0 @@ L "(" @@ Group 2 params
  @@ L ")" @@ sp0 @@ Opt (L "const") @@ sp0 @@ L "{".

Definition pat_php : regex :=
  L "function" @@ sp1 @@ Group 0 word1 @@ sp0 @@ L "(" @@ Group 1 params
  @@ L ")" @@ sp0 @@ Opt (L ":" @@ sp0 @@ Rep true 1 ty_char) @@ sp0 @@ L "{".

Local Close Scope regex_scope.

(** The trees, by language, as [re_compile] builds them from [PATTERNS]. *)
Definition PATTERN_TREES : list (pystr * regex) :=
  [ (py "python", pat_python);
    (py "javascript", pat_javascript);
    (py "typescript", pat_javascript);
    (py "rust", pat_rust);
    (py "go", pat_go);
    (py "dart", pat_dart);
    (py "java", pat_java);
    (py "kotlin", pat_kotlin);
    (py "swift", pat_swift);
    (py "c", pat_c);
    (py "cpp", pat_cpp);
    (py "php", pat_php) ].

Definition LANGUAGE_MAP : list (pystr * pystr) :=
  [ (py ".py", py "python");
    (py ".js", py "javascript"); (py ".jsx", py "javascript");
    (py ".mjs", py "javascript");
    (py ".ts", py "typescript"); (py ".tsx", py "typescript");
    (py ".rs", py "rust");
    (py ".go", py "go");
    (py ".dart", py "dart");
    (py ".java", py "java");
    (py ".kt", py "kotlin"); (py ".kts", py "kotlin");
    (py ".swift", py "swift");
    (py ".c", py "c"); (py ".h", py "c");
    (py ".cpp", py "cpp"); (py ".hpp", py "cpp"); (py ".cc", py "cpp");
    (py ".php", py "php") ].

Definition get_language (ext : pystr) : option pystr :=
  dict_get LANGUAGE_MAP ext.

Definition IGNORE_EXTS : list pystr :=
  map py
    [ ".png"; ".jpg"; ".jpeg"; ".gif"; ".ico"; ".svg"; ".woff"; ".woff2";
      ".ttf"; ".eot"; ".mp4"; ".webm"; ".mp3"; ".wav"; ".zip"; ".tar"; ".gz";
      ".pyc"; ".exe"; ".dll"; ".so"; ".dylib"; ".lock"; ".log"; ".map";
      ".DS_Store"; ".class"; ".o"; ".obj" ]%string.

Definition MAX_FILE_SIZE_BYTES : N := 100 * 1024.

(** ** [extract_functions] *)

(** The dictionary appended to [functions] at lines 98-102, with its keys
    ["name"], ["args"] and ["return"]. *)
Record Signature := {
  sig_name : pystr;
  sig_args : pystr;
  sig_return : pystr
}.

(** How a Python call ends: with a value, or with an exception that goes up
    to the caller. *)
Inductive outcome (A : Type) :=
| Returns (a : A)
| Raises.
Arguments Returns {A} a.
Arguments Raises {A}.

(** The iterator that [re.finditer] hands back, as the [for] loop sees it:
    it ends, it yields the next match (its [groups()]), or an exception
    comes out of the matching. *)
Inductive match_iter :=
| IterEnd
| IterYield (m : captures) (rest : match_iter)
| IterRaise.

(** The iterator that yields [ms] and goes on as [tail]. *)
Fixpoint iter_then (ms : list captures) (tail : match_iter) : match_iter :=
  match ms with
  | [] => tail
  | m :: ms' => IterYield m (iter_then ms' tail)
  end.

Definition iter_of_list (ms : list captures) : match_iter :=
  iter_then ms IterEnd.

(** Does the iteration end with an exception? *)
Fixpoint iter_raises (it : match_iter) : bool :=
  match it with
  | IterEnd => false
  | IterRaise => true
  | IterYield _ rest => iter_raises rest
  end.

(** The matches the iterator yields before it ends or raises. *)
Fixpoint iter_yielded (it : match_iter) : list captures :=
  match it with
  | IterEnd | IterRaise => []
  | IterYield m rest => m :: iter_yielded rest
  end.

(** [[g for g in match.groups() if g]]: the groups that took part and are
    not empty. *)
Fixpoint truthy_groups (m : captures) : list pystr :=
  match m with
  | [] => []
  | Some (x :: g) :: m' => (x :: g) :: truthy_groups m'
  | _ :: m' => truthy_groups m'
  end.

(** Lines 75-92: the fields before the clean-up, as
    [(func_name, args, ret)]. *)
Definition map_groups (lang : pystr) (groups : list pystr)
    : pystr * pystr * pystr :=
  let func_name := strip (nth 0 groups []) in
  let args := [] in
  let ret := [] in
  if py_in lang [py "c"; py "cpp"] then
    if (3 <=? length groups)%nat then
      let ret := strip (nth 0 groups []) in
      let func_name := strip (nth 1 groups []) in
      let args := strip (nth 2 groups []) in
      (func_name, args, ret)
    else (func_name, args, ret)
  else if pystr_eqb lang (py "java") then
    let args := if (1 <? length groups)%nat then strip (nth 1 groups [])
                else args in
    (func_name, args, ret)
  else
    let args := if (1 <? length groups)%nat then strip (nth 1 groups [])
                else args in
    let ret := if (2 <? length groups)%nat then strip (nth 2 groups [])
               else ret in
    (func_name, args, ret).

(** Lines 94-102: the clean-up and the dictionary. *)
Definition make_signature (fields : pystr * pystr * pystr) : Signature :=
  let '(func_name, args, ret) := fields in
  {| sig_name := func_name;
     sig_args := collapse args;
     sig_return := collapse ret |}.

(** The dictionary that a match with a non-empty [groups] list adds. *)
Definition match_signature (lang : pystr) (m : captures) : Signature :=
  make_signature (map_groups lang (truthy_groups m)).

(** The body of the [for] loop, lines 71-102, for one match. *)
Definition loop_body (lang : pystr) (m : captures)
    (functions : list Signature) : list Signature :=
  let groups := truthy_groups m in
  match groups with
  | [] => functions
  | _ :: _ => functions ++ [match_signature lang m]
  end.

(** The [for] loop over the iterator: the list [functions] as the loop
    leaves it, and whether the loop ended or an exception left it. *)
Fixpoint for_matches (lang : pystr) (it : match_iter)
    (functions : list Signature) : list Signature * outcome unit :=
  match it with
  | IterEnd => (functions, Returns tt)
  | IterRaise => (functions, Raises)
  | IterYield m rest => for_matches lang rest (loop_body lang m functions)
  end.

(** [extract_functions] over a matching engine.  [not pattern] holds of
    [None] and of the empty string.  [functions] is bound before the [try];
    [except Exception: pass] drops the exception and line 106 returns the
    list as it stands. *)
Definition extract_functions_with (finditer : pystr -> pystr -> match_iter)
    (content lang : pystr) : outcome (list Signature) :=
  let functions := [] in
  match dict_get PATTERNS lang with
  | None | Some [] => Returns []
  | Some (x :: p) =>
      let pattern := x :: p in
      let '(functions, _) :=
        for_matches lang (finditer pattern content) functions in
      Returns functions
  end.

Section Extraction.

Variable uni_isalnum : N -> bool.

(** [re.finditer(pattern, content, re.MULTILINE | re.DOTALL)]: a pattern
    that does not compile raises at the call, a compiled one yields every
    match. *)
Definition finditer (pattern content : pystr) : match_iter :=
  match re_compile pattern with
  | Some r => iter_of_list (re_finditer uni_isalnum r content)
  | None => IterRaise
  end.

Definition extract_functions (content lang : pystr)
    : outcome (list Signature) :=
  extract_functions_with finditer content lang.

End Extraction.

(** ** The per-file step of [generate_tree] *)

(** A file as the traversal meets it: the name that [os.walk] lists, the
    path [os.path.relpath] gives, and what [os.path.getsize] and
    [open(...).read()] do on it (a value, or an exception). *)
Record file_entry := {
  f_name : pystr;
  f_rel_path : pystr;
  f_getsize : outcome N;
  f_read : outcome pystr
}.

(** An entry of [files_data], keys ["path"] and ["functions"]. *)
Record file_info := {
  fi_path : pystr;
  fi_functions : list Signature
}.

(** The two lists that [generate_tree] builds; [extract_calls] records the
    arguments of each call of [extract_functions], in order. *)
Record walk_state := {
  tree_lines : list pystr;
  files_data : list file_info;
  extract_calls : list (pystr * pystr)
}.

(** The suffix of [p] from its last ["."] on. *)
Fixpoint last_dot (p : pystr) : option pystr :=
  match p with
  | [] => None
  | c :: p' => match last_dot p' with
               | Some e => Some e
               | None => if c =? ch "." then Some p else None
               end
  end.

(** [os.path.splitext(f)[1]] for a name without a separator: the text from
    the last dot on, unless only dots stand before it. *)
Definition splitext_ext (p : pystr) : pystr :=
  match last_dot p with
  | None => []
  | Some e =>
      if existsb (fun c => negb (c =? ch ".")) (consumed p e) then e else []
  end.

(** The page emoji of the tree lines, U+1F4C4. *)
Definition page_emoji : N := 128196.

(** The line of the tree listing for a file, line 128. *)
Definition tree_line (subindent : pystr) (f : file_entry) : pystr :=
  subindent ++ [page_emoji; ch " "] ++ f_name f.

Section Traversal.

Variable uni_isalnum : N -> bool.

(** Lines 134-141: the [try] block.  Gives [funcs] as line 143 finds it
    and the calls of [extract_functions] made. *)
Definition try_extract (f : file_entry) (lang : option pystr)
    : list Signature * list (pystr * pystr) :=
  let funcs := [] in
  match f_getsize f with
  | Raises => (funcs, [])
  | Returns size =>
      if size <? MAX_FILE_SIZE_BYTES then
        match f_read f with
        | Raises => (funcs, [])
        | Returns content =>
            match lang with
            | Some (x :: l) =>
                match extract_functions uni_isalnum content (x :: l) with
                | Returns fs => (fs, [(content, x :: l)])
                | Raises => (funcs, [(content, x :: l)])
                end
            | _ => (funcs, [])
            end
        end
      else (funcs, [])
  end.

(** Lines 125-147: the body of [for f in files]. *)
Definition visit_file (subindent : pystr) (f : file_entry)
    (st : walk_state) : walk_state :=
  let ext := splitext_ext (f_name f) in
  if py_in ext IGNORE_EXTS then st
  else
    let tree_lines' := tree_lines st ++ [tree_line subindent f] in
    let lang := get_language ext in
    let '(funcs, calls) := try_extract f lang in
    let files_data' :=
      match funcs with
      | [] => files_data st
      | _ :: _ =>
          files_data st
          ++ [{| fi_path := f_rel_path f; fi_functions := firstn 25 funcs |}]
      end in
    {| tree_lines := tree_lines';
       files_data := files_data';
       extract_calls := extract_calls st ++ calls |}.

(** [for f in files: ...] for the files of one directory. *)
Definition visit_files (subindent : pystr) (files : list file_entry)
    (st : walk_state) : walk_state :=
  fold_left (fun st f => visit_file subindent f st) files st.

End Traversal.

(** ** What a pattern can leave in its groups *)

(** What is known of a group after a match: it took no part, it holds a
    word, or nothing is known. *)
Inductive aval := AUnset | AGood | ATop.

Definition describes (v : aval) (o : option pystr) : Prop :=
  match v with
  | AUnset => o = None
  | AGood => exists w, o = Some w /\ good w
  | ATop => True
  end.

(** Items and classes without a whitespace character. *)
Definition item_wordy (it : citem) : bool :=
  match it with
  | CChar c => negb (isspace c)
  | CRange lo hi => (33 <=? lo) && (hi <=? 132)
  | CSpace | CWord => false
  end.

Definition class_wordy (cl : cclass) : bool :=
  negb (negated cl) && forallb item_wordy (items cl).

(** [wordy r]: what [r] consumes has no whitespace; [nonnull r]: it is not
    empty. *)
Fixpoint wordy (r : regex) : bool :=
  match r with
  | Lit l => nospaceb l
  | Chr cl | Rep _ _ cl => class_wordy cl
  | Cat r1 r2 | Alt r1 r2 => wordy r1 && wordy r2
  | Opt r1 | Group _ r1 => wordy r1
  end.

Fixpoint nonnull (r : regex) : bool :=
  match r with
  | Lit l => negb (length l =? 0)%nat
  | Chr _ => true
  | Rep _ min _ => negb (min =? 0)%nat
  | Cat r1 r2 => nonnull r1 || nonnull r2
  | Alt r1 r2 => nonnull r1 && nonnull r2
  | Opt _ => false
  | Group _ r1 => nonnull r1
  end.

(** The group states that a match of [r] can end in, from the state [a]; one
    state for each way through the alternatives and optional parts. *)
Fixpoint absint (r : regex) (a : list aval) : list (list aval) :=
  match r with
  | Lit _ | Chr _ | Rep _ _ _ => [a]
  | Cat r1 r2 => flat_map (absint r2) (absint r1 a)
  | Alt r1 r2 => absint r1 a ++ absint r2 a
  | Opt r1 => absint r1 a ++ [a]
  | Group n r1 =>
      map (set_nth n (if wordy r1 && nonnull r1 then AGood else ATop))
          (absint r1 a)
  end.

Definition final_states (r : regex) : list (list aval) :=
  absint r (repeat AUnset (ngroups r)).

(** The first group that took part holds a word. *)
Fixpoint first_set_good (a : list aval) : bool :=
  match a with
  | AUnset :: a' => first_set_good a'
  | AGood :: _ => true
  | _ => false
  end.

(** The first two groups hold words. *)
Definition two_good (a : list aval) : bool :=
  match a with
  | AGood :: AGood :: _ => true
  | _ => false
  end.

(** The check on a pattern that makes every name of [lang] a word: the
    name is [groups[0]], or for C and C++ [groups[0]] or [groups[1]]. *)
Definition names_ok (lang : pystr) (r : regex) : bool :=
  forallb (if py_in lang [py "c"; py "cpp"] then two_good else first_set_good)
          (final_states r).

(** The captures of a match are described by a final state of the
    pattern. *)
Definition described (r : regex) (c : captures) : Prop :=
  exists a, In a (final_states r) /\ Forall2 describes a c.

(** A pattern text of [lang] is not empty and compiles, and its names are
    words. *)
Definition pattern_ok (entry : pystr * pystr) : bool :=
  match snd entry, re_compile (snd entry) with
  | _ :: _, Some r => names_ok (fst entry) r
  | _, _ => false
  end.

(** ** Runs of the loop *)

(** [functions] after the loop body has run on the matches [ms], from the
    empty list. *)
Definition signatures_of (lang : pystr) (ms : list captures)
    : list Signature :=
  fold_left (fun functions m => loop_body lang m functions) ms [].

(** An iterator that goes as [it] for [n] matches and then raises. *)
Fixpoint failing_after (n : nat) (it : match_iter) : match_iter :=
  match n, it with
  | S n', IterYield m rest => IterYield m (failing_after n' rest)
  | _, _ => IterRaise
  end.

(** The pattern text of a language, empty without an entry. *)
Definition pattern_of (lang : pystr) : pystr :=
  match dict_get PATTERNS lang with
  | Some pattern => pattern
  | None => []
  end.

(** ** Sample inputs *)

(** A text file: [".txt"] has no entry in [LANGUAGE_MAP]. *)
Definition notes_file : file_entry :=
  {| f_name := py "notes.txt";
     f_rel_path := py "notes.txt";
     f_getsize := Returns 12;
     f_read := Returns (py "hello world
") |}.

(** A C file of exactly 102,400 bytes. *)
Definition limit_c_file : file_entry :=
  {| f_name := py "main.c";
     f_rel_path := py "main.c";
     f_getsize := Returns 102400;
     f_read := Returns (py "int main() {}" ++ repeat (ch " ") (N.to_nat 102387)) |}.

Definition small_c_file : file_entry :=
  {| f_name := py "add.c";
     f_rel_path := py "src/add.c";
     f_getsize := Returns 23;
     f_read := Returns (py "int add(int a, int b) {") |}.

(** Twenty-six declarations in one file of 390 bytes. *)
Definition many_functions : pystr :=
  concat (repeat (py "int f(int a) {}") 26).

Definition long_c_file : file_entry :=
  {| f_name := py "many.c";
     f_rel_path := py "src/many.c";
     f_getsize := Returns 390;
     f_read := Returns many_functions |}.

Definition empty_walk : walk_state :=
  {| tree_lines := []; files_data := []; extract_calls := [] |}.

(** ** The rest of the file: string and path functions of the library *)

(** Leftmost occurrences of [old] that do not overlap: after one is found,
    [skip] characters of it are still to be passed over. *)
Fixpoint replace_scan (old new : pystr) (skip : nat) (s : pystr) : pystr :=
  match s with
  | [] => []
  | c :: s' =>
      match skip with
      | S k => replace_scan old new k s'
      | O =>
          match strip_prefix old s with
          | Some _ => new ++ replace_scan old new (length old - 1) s'
          | None => c :: replace_scan old new 0 s'
          end
      end
  end.

(** [s.replace(old, new)]; an empty [old] matches before every character
    and at the end. *)
Definition str_replace (old new s : pystr) : pystr :=
  match old with
  | [] => new ++ flat_map (fun c => c :: new) s
  | _ :: _ => replace_scan old new 0 s
  end.

Fixpoint count_scan (sub : pystr) (skip : nat) (s : pystr) : nat :=
  match s with
  | [] => 0%nat
  | _ :: s' =>
      match skip with
      | S k => count_scan sub k s'
      | O =>
          match strip_prefix sub s with
          | Some _ => S (count_scan sub (length sub - 1) s')
          | None => count_scan sub 0 s'
          end
      end
  end.

(** [s.count(sub)] *)
Definition str_count (sub s : pystr) : nat :=
  match sub with
  | [] => S (length s)
  | _ :: _ => count_scan sub 0 s
  end.

(** [s * n] *)
Fixpoint str_times (s : pystr) (n : nat) : pystr :=
  match n with
  | O => []
  | S n' => s ++ str_times s n'
  end.

(** [os.sep] on a POSIX system. *)
Definition os_sep : pystr := py "/".

(** The suffix of [p] after its last separator. *)
Fixpoint after_last_sep (p : pystr) : option pystr :=
  match p with
  | [] => None
  | c :: p' => match after_last_sep p' with
               | Some b => Some b
               | None => if c =? ch "/" then Some p' else None
               end
  end.

(** [os.path.basename(p)] *)
Definition basename (p : pystr) : pystr :=
  match after_last_sep p with
  | Some b => b
  | None => p
  end.

(** [os.path.join(a, b)] *)
Definition path_join (a b : pystr) : pystr :=
  match b with
  | c :: _ =>
      if c =? ch "/" then b
      else match rev a with
           | [] => b
           | l :: _ => if l =? ch "/" then a ++ b else a ++ os_sep ++ b
           end
  | [] =>
      match rev a with
      | [] => b
      | l :: _ => if l =? ch "/" then a ++ b else a ++ os_sep ++ b
      end
  end.

(** The order of [str]: by code points, a prefix first. *)
Fixpoint pystr_leb (a b : pystr) : bool :=
  match a, b with
  | [], _ => true
  | _ :: _, [] => false
  | x :: a', y :: b' =>
      if x <? y then true else if y <? x then false else pystr_leb a' b'
  end.

Section Sorting.

Variable T : Type.
Variable key : T -> pystr.

Fixpoint insert_sorted (x : T) (l : list T) : list T :=
  match l with
  | [] => [x]
  | y :: l' =>
      if pystr_leb (key x) (key y) then x :: l
      else y :: insert_sorted x l'
  end.

(** [list.sort()] on the names: ascending and stable. *)
Definition sort_by (l : list T) : list T := fold_right insert_sorted [] l.

End Sorting.

Arguments insert_sorted {T}.
Arguments sort_by {T}.

(** [str(n)] for a length. *)
Fixpoint uint_digits (u : Decimal.uint) : pystr :=
  match u with
  | Decimal.Nil => []
  | Decimal.D0 u' => ch "0" :: uint_digits u'
  | Decimal.D1 u' => ch "1" :: uint_digits u'
  | Decimal.D2 u' => ch "2" :: uint_digits u'
  | Decimal.D3 u' => ch "3" :: uint_digits u'
  | Decimal.D4 u' => ch "4" :: uint_digits u'
  | Decimal.D5 u' => ch "5" :: uint_digits u'
  | Decimal.D6 u' => ch "6" :: uint_digits u'
  | Decimal.D7 u' => ch "7" :: uint_digits u'
  | Decimal.D8 u' => ch "8" :: uint_digits u'
  | Decimal.D9 u' => ch "9" :: uint_digits u'
  end.

Definition str_of_nat (n : nat) : pystr := uint_digits (Nat.to_uint n).

(** ** [generate_tree] *)

Definition IGNORE_DIRS : list pystr :=
  map py
    [ ".git"; ".vscode"; ".idea"; "node_modules"; "dist"; "build";
      "coverage"; "target"; "vendor"; "__pycache__"; "venv"; ".env";
      ".gemini"; ".agent"; "bin"; "obj"; "out"; "debug"; "release" ]%string.

(** A directory as [os.walk] reads it: its name, the directories in it that
    the walk enters, and its files, both in the order of the listing. *)
Local Unset Elimination Schemes.
Inductive dir_entry :=
| Dir (d_name : pystr) (d_dirs : list dir_entry) (d_files : list file_entry).
Local Set Elimination Schemes.

Definition dir_name (d : dir_entry) : pystr :=
  match d with Dir n _ _ => n end.

Definition dir_dirs (d : dir_entry) : list dir_entry :=
  match d with Dir _ ds _ => ds end.

Definition dir_files (d : dir_entry) : list file_entry :=
  match d with Dir _ _ fs => fs end.

Fixpoint height (d : dir_entry) : nat :=
  match d with
  | Dir _ ds _ => S (fold_right (fun d' h => Nat.max (height d') h) 0%nat ds)
  end.

(** The folder emoji of the tree lines, U+1F4C2. *)
Definition folder_emoji : N := 128194.

(** Line 117: [root.replace(start_path, '').count(os.sep)]. *)
Definition level_of (start_path root : pystr) : nat :=
  str_count os_sep (str_replace start_path [] root).

(** Line 121: the line of a folder. *)
Definition folder_line (level : nat) (root : pystr) : pystr :=
  str_times (py "  ") level ++ [folder_emoji; ch " "] ++ basename root
  ++ py "/".

(** Lines 113-114: the directories that the walk goes on to. *)
Definition kept_dirs (dirs : list dir_entry) : list dir_entry :=
  sort_by dir_name
    (filter (fun d => negb (py_in (dir_name d) IGNORE_DIRS)) dirs).

Section Walk.

Variable uni_isalnum : N -> bool.

(** The body of the loop over [os.walk(start_path)] for the directory [d]
    met as [root], then the walk through the directories left in [dirs],
    in their order.  [fuel] bounds the depth. *)
Fixpoint walk (fuel : nat) (start_path root : pystr) (d : dir_entry)
    (st : walk_state) : walk_state :=
  match fuel with
  | O => st
  | S fuel' =>
      let dirs := kept_dirs (dir_dirs d) in
      let files := sort_by f_name (dir_files d) in
      let level := level_of start_path root in
      let st1 :=
        if (0 <? level)%nat
        then {| tree_lines := tree_lines st ++ [folder_line level root];
                files_data := files_data st;
                extract_calls := extract_calls st |}
        else st in
      let subindent := str_times (py "  ") (level + 1) in
      let st2 := visit_files uni_isalnum subindent files st1 in
      fold_left
        (fun st' d' =>
           walk fuel' start_path (path_join root (dir_name d')) d' st')
        dirs st2
  end.

(** [generate_tree(start_path)] on the directory [top]; [None] when
    [os.walk] yields nothing, as for a path that is no directory. *)
Definition generate_tree (start_path : pystr) (top : option dir_entry)
    : list pystr * list file_info :=
  let st0 := {| tree_lines := []; files_data := []; extract_calls := [] |} in
  let st :=
    match top with
    | Some d => walk (height d) start_path start_path d st0
    | None => st0
    end in
  (tree_lines st, files_data st).

End Walk.

(** ** [main]: the report *)

(** Line 180 and 181: [s.replace('|', '\|')]. *)
Definition escape_bars (s : pystr) : pystr :=
  str_replace (py "|") (py "\|") s.

(** Lines 180 and 182: the cell of the arguments. *)
Definition inputs_cell (args : pystr) : pystr :=
  let args := escape_bars args in
  if (50 <? length args)%nat then firstn 47 args ++ py "..." else args.

(** Line 183: the row of a function. *)
Definition render_row (func : Signature) : pystr :=
  py "| `" ++ sig_name func ++ py "` | `" ++ inputs_cell (sig_args func)
  ++ py "` | `" ++ escape_bars (sig_return func) ++ py "` |".

(** Lines 176-184: what is printed for a file, one string for each
    [print]. *)
Definition render_file (file_info : file_info) : list pystr :=
  [ py "## File: `" ++ fi_path file_info ++ py "`";
    py "| Function | Inputs | Outputs |";
    py "| :--- | :--- | :--- |" ]
  ++ map render_row (fi_functions file_info)
  ++ [ [10] ].

(** Lines 163-184: what [main] prints for a directory that exists. *)
Definition report (root_dir : pystr) (tree : list pystr)
    (analysis : list file_info) : list pystr :=
  [ py "Scanning directory: " ++ root_dir ++ [10];
    py "# Project Structure";
    py "```text" ]
  ++ tree
  ++ [ py "```";
       10 :: py "# Code Analysis";
       py "Total files with functions: " ++ str_of_nat (length analysis) ]
  ++ flat_map render_file analysis.

(** What [main] reads from its surroundings: [sys.argv], [os.getcwd()],
    [os.path.abspath], [os.path.exists] and the directory found at a
    path. *)
Record environment := {
  argv : list pystr;
  getcwd : pystr;
  abspath : pystr -> pystr;
  path_exists : pystr -> bool;
  directory_at : pystr -> option dir_entry
}.

Section Main.

Variable uni_isalnum : N -> bool.

(** [main()]: the strings printed, and the status of [sys.exit] if it
    is called. *)
Definition main (env : environment) : list pystr * option N :=
  let root_dir :=
    if (1 <? length (argv env))%nat then nth 1 (argv env) []
    else getcwd env in
  let root_dir := abspath env root_dir in
  if negb (path_exists env root_dir) then
    ([ py "Error: Directory '" ++ root_dir ++ py "' does not exist." ],
     Some 1)
  else
    let '(tree, analysis) :=
      generate_tree uni_isalnum root_dir (directory_at env root_dir) in
    (report root_dir tree analysis, None).

End Main.

(** ** Predicates of the further properties *)

(** Words separated by single blanks: what the clean-up leaves. *)
Definition spaced_words (s : pystr) : Prop :=
  exists ws, Forall good ws /\ s = join [ch " "] ws.

(** The fields of a dictionary are clean: the name is stripped, the
    arguments and the return type are words separated by single blanks. *)
Definition tidy (sg : Signature) : Prop :=
  strip (sig_name sg) = sig_name sg
  /\ spaced_words (sig_args sg) /\ spaced_words (sig_return sg).

(** The only whitespace is the blank. *)
Definition one_line (s : pystr) : Prop :=
  Forall (fun c => isspace c = true -> c = ch " ") s.

(** The groups that a state lets take part. *)
Definition set_count (a : list aval) : nat :=
  length (filter (fun v => match v with AUnset => false | _ => true end) a).

(** At most two groups of a match take part. *)
Definition two_groups_at_most (r : regex) : bool :=
  forallb (fun a => (set_count a <=? 2)%nat) (final_states r).

(** The languages whose signatures never carry a return type. *)
Definition NO_RETURN_LANGS : list pystr :=
  map py [ "javascript"; "typescript"; "dart"; "java"; "kotlin"; "swift";
           "php" ]%string.

(** Every ["|"] stands after a backslash; [prev] is the character before
    [s]. *)
Fixpoint bars_escaped_from (prev : N) (s : pystr) : bool :=
  match s with
  | [] => true
  | c :: s' =>
      (negb (c =? ch "|") || (prev =? ch "\")) && bars_escaped_from c s'
  end.

Definition bars_escaped (s : pystr) : bool := bars_escaped_from 0 s.

(** The files of a directory and of the directories below it. *)
Fixpoint all_files (d : dir_entry) : list file_entry :=
  match d with
  | Dir _ ds fs => fs ++ flat_map all_files ds
  end.

(** The directory without the directories that [IGNORE_DIRS] names, at
    every depth. *)
Fixpoint prune (d : dir_entry) : dir_entry :=
  match d with
  | Dir n ds fs =>
      Dir n
        (filter (fun d' => negb (py_in (dir_name d') IGNORE_DIRS))
           (map prune ds))
        fs
  end.

(** The check behind [NO_RETURN_LANGS]: the language takes the branch of
    line 86 or of line 89, and in the latter at most two groups take part
    in a match. *)
Definition no_return_ok (e : pystr * pystr) : bool :=
  if py_in (fst e) NO_RETURN_LANGS then
    negb (py_in (fst e) [py "c"; py "cpp"])
    && (pystr_eqb (fst e) (py "java")
        || match re_compile (snd e) with
           | Some r => two_groups_at_most r
           | None => false
           end)
  else true.

(** What the escaping makes of one character. *)
Definition escape_char (c : N) : pystr :=
  if c =? ch "|" then py "\|" else [c].

(** The state with one more line, as line 121 leaves it. *)
Definition add_line (line : pystr) (st : walk_state) : walk_state :=
  {| tree_lines := tree_lines st ++ [line];
     files_data := files_data st;
     extract_calls := extract_calls st |}.

(** An entry of [files_data] holds between 1 and 25 signatures. *)
Definition entry_bounded (fi : file_info) : Prop :=
  (1 <= length (fi_functions fi) <= 25)%nat.

(** The file that an entry of [files_data] comes from. *)
Definition entry_of (uni_isalnum : N -> bool) (fi : file_info)
    (f : file_entry) : Prop :=
  fi_path fi = f_rel_path f
  /\ py_in (splitext_ext (f_name f)) IGNORE_EXTS = false
  /\ exists size content lang sigs,
       f_getsize f = Returns size /\ size < MAX_FILE_SIZE_BYTES
       /\ f_read f = Returns content
       /\ get_language (splitext_ext (f_name f)) = Some lang
       /\ extract_functions uni_isalnum content lang = Returns sigs
       /\ sigs <> []
       /\ fi_functions fi = firstn 25 sigs.

(** The file that a call of [extract_functions] comes from. *)
Definition call_of (call : pystr * pystr) (f : file_entry) : Prop :=
  py_in (splitext_ext (f_name f)) IGNORE_EXTS = false
  /\ f_read f = Returns (fst call)
  /\ get_language (splitext_ext (f_name f)) = Some (snd call)
  /\ (exists size, f_getsize f = Returns size /\ size < MAX_FILE_SIZE_BYTES)
  /\ (exists pattern r,
        dict_get PATTERNS (snd call) = Some pattern
        /\ re_compile pattern = Some r).




(** Ascending by the names. *)
Definition sorted_by {T : Type} (key : T -> pystr) (l : list T) : Prop :=
  StronglySorted (fun x y => pystr_leb (key x) (key y) = true) l.

(** ** More sample inputs *)

Definition kotlin_content : pystr := py "fun add(a: Int, b: Int): Int {".

(** A project with a text file, a source directory and a directory that
    [IGNORE_DIRS] names. *)
Definition sample_tree : dir_entry :=
  Dir (py "proj")
    [ Dir (py "src") [] [small_c_file];
      Dir (py "node_modules") [] [long_c_file] ]
    [notes_file].

(** The same project as another listing gives it. *)
Definition sample_tree_reordered : dir_entry :=
  Dir (py "proj")
    [ Dir (py "node_modules") [] [long_c_file];
      Dir (py "src") [] [small_c_file] ]
    [notes_file].

Definition add_signature : Signature :=
  {| sig_name := py "add";
     sig_args := py "int a, int b";
     sig_return := py "int" |}.

(** The file that macOS leaves in a directory; [IGNORE_EXTS] holds its
    name. *)
Definition ds_store_file : file_entry :=
  {| f_name := py ".DS_Store";
     f_rel_path := py ".DS_Store";
     f_getsize := Returns 6148;
     f_read := Raises |}.

(** The twenty-six declarations of [many_functions] and a run of slashes
    after them: 102,400 bytes, the value of [MAX_FILE_SIZE_BYTES]. *)
Definition many_functions_at_limit : pystr :=
  many_functions ++ repeat (ch "/") (N.to_nat 102010).

Definition limit_many_c_file : file_entry :=
  {| f_name := py "many.c";
     f_rel_path := py "src/many.c";
     f_getsize := Returns 102400;
     f_read := Returns many_functions_at_limit |}.

(** The same with one more slash: 102,401 bytes. *)
Definition oversized_many_c_file : file_entry :=
  {| f_name := py "many.c";
     f_rel_path := py "src/many.c";
     f_getsize := Returns 102401;
     f_read := Returns (many_functions_at_limit ++ [ch "/"]) |}.

(** * Properties *)

(** ** Strings: words, [strip], [split] and [join] *)

Lemma pystr_eqb_eq a b : pystr_eqb a b = true <-> a = b.
Proof.
  unfold pystr_eqb. destruct (list_eq_dec N.eq_dec a b); split; congruence.
Qed.

Lemma nospaceb_app u v : nospaceb (u ++ v) = nospaceb u && nospaceb v.
Proof. apply forallb_app. Qed.

Lemma nospaceb_rev w : nospaceb (rev w) = nospaceb w.
Proof.
  induction w as [|x w IH]; simpl; [reflexivity|].
  rewrite nospaceb_app, IH. simpl. rewrite andb_true_r. apply andb_comm.
Qed.

Lemma good_rev w : good w -> good (rev w).
Proof.
  intros [Hne Hns]. split.
  - intro E. apply Hne. rewrite <- (rev_involutive w), E. reflexivity.
  - rewrite nospaceb_rev. exact Hns.
Qed.

Lemma lstrip_good w : good w -> lstrip w = w.
Proof.
  intros [Hne Hns]. destruct w as [|x w]; [congruence|].
  simpl in *. apply andb_prop in Hns. destruct Hns as [Hx _].
  apply negb_true_iff in Hx. rewrite Hx. reflexivity.
Qed.

Lemma strip_good w : good w -> strip w = w.
Proof.
  intro H. unfold strip, rstrip. rewrite (lstrip_good _ H).
  rewrite (lstrip_good _ (good_rev _ H)). apply rev_involutive.
Qed.

Lemma split_from_app_word w : forall cur rest,
  nospaceb w = true ->
  split_from cur (w ++ rest) = split_from (rev w ++ cur) rest.
Proof.
  induction w as [|x w IH]; intros cur rest H; simpl in *; [reflexivity|].
  apply andb_prop in H. destruct H as [Hx Hw].
  apply negb_true_iff in Hx. rewrite Hx, (IH _ _ Hw), <- app_assoc.
  reflexivity.
Qed.

Lemma split_word w : good w -> split w = [w].
Proof.
  intros [Hne Hns]. unfold split.
  rewrite <- (app_nil_r w) at 1. rewrite (split_from_app_word _ _ _ Hns).
  rewrite app_nil_r. simpl.
  destruct (rev w) eqn:E.
  - exfalso. apply Hne. rewrite <- (rev_involutive w), E. reflexivity.
  - rewrite <- E, rev_involutive. reflexivity.
Qed.

Lemma join_cons sep w w2 ws :
  join sep (w :: w2 :: ws) = w ++ sep ++ join sep (w2 :: ws).
Proof. reflexivity. Qed.

Lemma split_join ws : Forall good ws -> split (join [ch " "] ws) = ws.
Proof.
  induction 1 as [|w ws Hw Hws IH]; [reflexivity|].
  destruct ws as [|w2 ws].
  - simpl. apply split_word, Hw.
  - destruct Hw as [Hne Hns]. unfold split in *.
    rewrite join_cons. rewrite split_from_app_word by exact Hns.
    rewrite app_nil_r. cbn [app split_from].
    change (isspace (ch " ")) with true. cbv iota.
    destruct (rev w) eqn:E.
    + exfalso. apply Hne. rewrite <- (rev_involutive w), E. reflexivity.
    + rewrite <- E, rev_involutive, IH. reflexivity.
Qed.

Lemma split_from_good s : forall cur,
  nospaceb cur = true -> Forall good (split_from cur s).
Proof.
  assert (Hrev : forall cur, cur <> [] -> nospaceb cur = true -> good (rev cur)).
  { intros cur Hne Hns. apply good_rev. split; assumption. }
  induction s as [|c s IH]; intros cur Hcur; simpl.
  - destruct cur; constructor; [|constructor].
    apply Hrev; [discriminate | assumption].
  - destruct (isspace c) eqn:Ec.
    + destruct cur; [apply IH; reflexivity|].
      constructor; [apply Hrev; [discriminate | assumption]|].
      apply IH. reflexivity.
    + apply IH. simpl. rewrite Ec. exact Hcur.
Qed.

Lemma split_good s : Forall good (split s).
Proof. apply split_from_good. reflexivity. Qed.

(** ** The matcher: what a successful match has consumed and captured *)

Lemma strip_prefix_app l : forall s s',
  strip_prefix l s = Some s' -> s = l ++ s'.
Proof.
  induction l as [|x l IH]; intros s s' H; simpl in H.
  - injection H as <-. reflexivity.
  - destruct s as [|y s]; [discriminate|].
    destruct (x =? y) eqn:E; [|discriminate].
    apply N.eqb_eq in E. subst y. simpl. f_equal. apply IH, H.
Qed.

Lemma consumed_app w s' : consumed (w ++ s') s' = w.
Proof.
  unfold consumed. rewrite length_app.
  replace (length w + length s' - length s')%nat with (length w) by lia.
  rewrite firstn_app, Nat.sub_diag, firstn_all. simpl. apply app_nil_r.
Qed.

Lemma isspace_range lo hi c :
  (33 <=? lo) && (hi <=? 132) = true ->
  (lo <=? c) && (c <=? hi) = true -> isspace c = false.
Proof.
  intros H1 H2.
  apply andb_prop in H1. destruct H1 as [Hlo Hhi].
  apply andb_prop in H2. destruct H2 as [Hl Hh].
  apply N.leb_le in Hlo, Hhi, Hl, Hh.
  unfold isspace.
  repeat match goal with
         | |- context [?a <=? ?b] =>
             destruct (N.leb_spec a b); try lia
         | |- context [?a =? ?b] =>
             destruct (N.eqb_spec a b); try lia
         end; reflexivity.
Qed.

Lemma set_nth_describes n v o : forall a c,
  Forall2 describes a c -> describes v o ->
  Forall2 describes (set_nth n v a) (set_nth n o c).
Proof.
  induction n as [|n IH]; intros a c H Hv; destruct H; simpl;
    try constructor; auto.
Qed.

Lemma describes_unset n : Forall2 describes (repeat AUnset n) (repeat None n).
Proof. induction n; simpl; constructor; simpl; auto. Qed.

Section MatcherFacts.

Variable uni_isalnum : N -> bool.

Lemma class_wordy_sound cl x :
  class_wordy cl = true -> in_class uni_isalnum cl x = true -> isspace x = false.
Proof.
  unfold class_wordy, in_class. intros H Hin.
  apply andb_prop in H. destruct H as [Hneg Hits].
  apply negb_true_iff in Hneg. rewrite Hneg in Hin. simpl in Hin.
  apply existsb_exists in Hin. destruct Hin as [it [Hit Hx]].
  rewrite forallb_forall in Hits. specialize (Hits it Hit).
  destruct it; simpl in *; try discriminate.
  - apply N.eqb_eq in Hx. subst. apply negb_true_iff, Hits.
  - eapply isspace_range; eassumption.
Qed.

Lemma class_wordy_word cl w :
  class_wordy cl = true -> forallb (in_class uni_isalnum cl) w = true ->
  nospaceb w = true.
Proof.
  intros Hcl Hw. unfold nospaceb. rewrite forallb_forall in *.
  intros x Hx. apply negb_true_iff.
  apply (class_wordy_sound cl x Hcl), Hw, Hx.
Qed.

Section Continuations.

Variable A : Type.
Implicit Types (k : pystr -> captures -> option A) (res : A).

Lemma rep_greedy_sound cl s : forall min c k res,
  rep_greedy uni_isalnum cl min s c k = Some res ->
  exists w s', s = w ++ s' /\ k s' c = Some res
               /\ forallb (in_class uni_isalnum cl) w = true
               /\ (min <= length w)%nat.
Proof.
  assert (Hhere : forall min s c k res,
             match min with O => k s c | S _ => None end = Some res ->
             exists w s', s = w ++ s' /\ k s' c = Some res
               /\ forallb (in_class uni_isalnum cl) w = true
               /\ (min <= length w)%nat).
  { intros [|m] s0 c k res H; [|discriminate].
    exists [], s0. simpl. auto. }
  induction s as [|x s IH]; intros min c k res H; simpl in H.
  - apply Hhere, H.
  - destruct (in_class uni_isalnum cl x) eqn:Ex; [|apply Hhere, H].
    destruct (rep_greedy uni_isalnum cl (pred min) s c k) eqn:Er;
      [|apply Hhere, H].
    injection H as ->.
    destruct (IH _ _ _ _ Er) as (w & s' & -> & Hk & Hw & Hlen).
    exists (x :: w), s'. simpl. rewrite Ex, Hw.
    repeat split; auto. lia.
Qed.

Lemma rep_lazy_sound cl s : forall min c k res,
  rep_lazy uni_isalnum cl min s c k = Some res ->
  exists w s', s = w ++ s' /\ k s' c = Some res
               /\ forallb (in_class uni_isalnum cl) w = true
               /\ (min <= length w)%nat.
Proof.
  induction s as [|x s IH]; intros min c k res H.
  - destruct min as [|m]; simpl in H; [|discriminate].
    destruct (k [] c) eqn:Ek; [|discriminate].
    injection H as ->. exists [], []. simpl. auto.
  - assert (Hmore :
        (if in_class uni_isalnum cl x
         then rep_lazy uni_isalnum cl (pred min) s c k else None)
        = Some res ->
        exists w s', x :: s = w ++ s' /\ k s' c = Some res
               /\ forallb (in_class uni_isalnum cl) w = true
               /\ (min <= length w)%nat).
    { intro Hm. destruct (in_class uni_isalnum cl x) eqn:Ex; [|discriminate].
      destruct (IH _ _ _ _ Hm) as (w & s' & -> & Hk & Hw & Hlen).
      exists (x :: w), s'. simpl. rewrite Ex, Hw.
      repeat split; auto. lia. }
    destruct min as [|m]; simpl in H; [|apply Hmore, H].
    destruct (k (x :: s) c) eqn:Ek; [|apply Hmore, H].
    injection H as ->. exists [], (x :: s). simpl. auto.
Qed.

End Continuations.

(** A successful match has consumed a prefix [w] of the input and handed
    the rest on; the captures it leaves are among the states that
    [absint] lists, and [wordy] and [nonnull] hold of [w]. *)
Lemma rmatch_sound (A : Type) (r : regex) :
  forall s c (k : pystr -> captures -> option A) res a,
    rmatch uni_isalnum r s c k = Some res ->
    Forall2 describes a c ->
    exists w s' c' a',
      s = w ++ s' /\ k s' c' = Some res
      /\ In a' (absint r a) /\ Forall2 describes a' c'
      /\ (wordy r = true -> nospaceb w = true)
      /\ (nonnull r = true -> w <> []).
Proof.
  induction r as [l | cl | g min cl | r1 IH1 r2 IH2 | r1 IH1 r2 IH2
                  | r1 IH1 | n r1 IH1];
    intros s c k res a H Ha; simpl in H.
  - destruct (strip_prefix l s) as [s'|] eqn:E; [|discriminate].
    apply strip_prefix_app in E. subst s.
    exists l, s', c, a. simpl. repeat split; auto.
    intros Hl ->. discriminate.
  - destruct s as [|x s]; [discriminate|].
    destruct (in_class uni_isalnum cl x) eqn:Ex; [|discriminate].
    exists [x], s, c, a. simpl. repeat split; auto; [|discriminate].
    intro Hcl. unfold nospaceb. simpl.
    rewrite (class_wordy_sound cl x Hcl Ex). reflexivity.
  - assert (Hrep : exists w s', s = w ++ s' /\ k s' c = Some res
                 /\ forallb (in_class uni_isalnum cl) w = true
                 /\ (min <= length w)%nat).
    { destruct g; [eapply rep_greedy_sound | eapply rep_lazy_sound];
        eassumption. }
    destruct Hrep as (w & s' & -> & Hk & Hw & Hlen).
    exists w, s', c, a. simpl. repeat split; auto.
    + intro Hcl. eapply class_wordy_word; eassumption.
    + intros Hmin ->. simpl in Hlen.
      destruct min; [discriminate | lia].
  - destruct (IH1 _ _ _ _ _ H Ha)
      as (w1 & s1 & c1 & a1 & -> & Hk1 & Hin1 & Ha1 & Hw1 & Hn1).
    destruct (IH2 _ _ _ _ _ Hk1 Ha1)
      as (w2 & s2 & c2 & a2 & -> & Hk2 & Hin2 & Ha2 & Hw2 & Hn2).
    exists (w1 ++ w2), s2, c2, a2. simpl.
    repeat split; auto.
    + apply app_assoc.
    + apply in_flat_map. eauto.
    + intro Hw. apply andb_prop in Hw. destruct Hw.
      rewrite nospaceb_app, Hw1, Hw2; auto.
    + intros Hn E. apply app_eq_nil in E. destruct E.
      apply orb_prop in Hn.
      destruct Hn as [X|X]; [apply (Hn1 X) | apply (Hn2 X)]; assumption.
  - destruct (rmatch uni_isalnum r1 s c k) as [res1|] eqn:E1.
    + injection H as ->.
      destruct (IH1 _ _ _ _ _ E1 Ha)
        as (w & s' & c' & a' & -> & Hk & Hin & Ha' & Hw & Hn).
      exists w, s', c', a'. simpl. repeat split; auto.
      * apply in_or_app. auto.
      * intro X. apply andb_prop in X. destruct X. auto.
      * intro X. apply andb_prop in X. destruct X. auto.
    + destruct (IH2 _ _ _ _ _ H Ha)
        as (w & s' & c' & a' & -> & Hk & Hin & Ha' & Hw & Hn).
      exists w, s', c', a'. simpl. repeat split; auto.
      * apply in_or_app. auto.
      * intro X. apply andb_prop in X. destruct X. auto.
      * intro X. apply andb_prop in X. destruct X. auto.
  - destruct (rmatch uni_isalnum r1 s c k) as [res1|] eqn:E1.
    + injection H as ->.
      destruct (IH1 _ _ _ _ _ E1 Ha)
        as (w & s' & c' & a' & -> & Hk & Hin & Ha' & Hw & Hn).
      exists w, s', c', a'. simpl. repeat split; auto.
      * apply in_or_app. auto.
      * discriminate.
    + exists [], s, c, a. simpl. repeat split; auto.
      * apply in_or_app. simpl. auto.
      * discriminate.
  - destruct (IH1 _ _ _ _ _ H Ha)
      as (w & s' & c' & a' & -> & Hk & Hin & Ha' & Hw & Hn).
    rewrite consumed_app in Hk.
    exists w, s', (set_nth n (Some w) c'),
      (set_nth n (if wordy r1 && nonnull r1 then AGood else ATop) a').
    simpl. repeat split; auto.
    + apply in_map. exact Hin.
    + apply set_nth_describes; [exact Ha'|].
      destruct (wordy r1) eqn:Ew; simpl; [|exact I].
      destruct (nonnull r1) eqn:En; simpl; [|exact I].
      exists w. split; [reflexivity|]. split; auto.
Qed.

Lemma match_at_sound r must s s' c :
  match_at uni_isalnum r must s = Some (s', c) ->
  described r c /\ (length s' <= length s)%nat
  /\ (must = true -> (length s' < length s)%nat).
Proof.
  unfold match_at. intro H.
  destruct (rmatch_sound _ _ _ _ _ _ _ H (describes_unset (ngroups r)))
    as (w & s1 & c1 & a1 & -> & Hk & Hin & Ha & _ & _).
  destruct (must && (length s1 =? length (w ++ s1))%nat) eqn:E;
    [discriminate|].
  injection Hk as -> ->.
  split; [exists a1; split; assumption|].
  rewrite length_app. split; [lia|].
  intros ->. simpl in E. apply Nat.eqb_neq in E.
  rewrite length_app in E. lia.
Qed.

Lemma search_sound r s : forall must s0 s' c,
  search uni_isalnum r must s = Some (s0, s', c) ->
  described r c /\ (length s' <= length s0 <= length s)%nat
  /\ (must = true -> length s' = length s0 ->
      (length s0 < length s)%nat).
Proof.
  induction s as [|x s IH]; intros must s0 s' c H; simpl in H.
  - destruct (match_at uni_isalnum r must []) as [[s1 c1]|] eqn:E;
      [|discriminate].
    injection H as <- <- <-.
    destruct (match_at_sound _ _ _ _ _ E) as (Hd & Hle & Hlt).
    repeat split; auto. intros Hm. specialize (Hlt Hm). lia.
  - destruct (match_at uni_isalnum r must (x :: s)) as [[s1 c1]|] eqn:E.
    + injection H as <- <- <-.
      destruct (match_at_sound _ _ _ _ _ E) as (Hd & Hle & Hlt).
      repeat split; auto. intros Hm. specialize (Hlt Hm). lia.
    + destruct (IH _ _ _ _ H) as (Hd & [Hle1 Hle2] & _).
      simpl. repeat split; auto; lia.
Qed.

Lemma finditer_from_sound r fuel : forall must s,
  Forall (described r) (finditer_from uni_isalnum fuel r must s).
Proof.
  induction fuel as [|fuel IH]; intros must s; simpl; [constructor|].
  destruct (search uni_isalnum r must s) as [[[s0 s'] c]|] eqn:E;
    [|constructor].
  constructor; [|apply IH].
  apply (search_sound _ _ _ _ _ _ E).
Qed.

Lemma re_finditer_sound r content :
  Forall (described r) (re_finditer uni_isalnum r content).
Proof. apply finditer_from_sound. Qed.

End MatcherFacts.

(** ** The registry *)

Lemma dict_get_In {V : Type} (d : list (pystr * V)) k v :
  dict_get d k = Some v -> In (k, v) d.
Proof.
  induction d as [|[k' v'] d IH]; simpl; [discriminate|].
  destruct (pystr_eqb k k') eqn:E.
  - apply pystr_eqb_eq in E. intros [= ->]. subst. auto.
  - auto.
Qed.

Lemma PATTERNS_compile :
  map (fun e => (fst e, re_compile (snd e))) PATTERNS
  = map (fun e => (fst e, Some (snd e))) PATTERN_TREES.
Proof. vm_compute. reflexivity. Qed.

Lemma PATTERNS_ok : forallb pattern_ok PATTERNS = true.
Proof. vm_compute. reflexivity. Qed.

Lemma PATTERNS_lookup lang pattern :
  dict_get PATTERNS lang = Some pattern ->
  pattern <> []
  /\ exists r, re_compile pattern = Some r /\ names_ok lang r = true.
Proof.
  intro H. apply dict_get_In in H.
  pose proof PATTERNS_ok as Hok. rewrite forallb_forall in Hok.
  specialize (Hok _ H). unfold pattern_ok in Hok. simpl in Hok.
  destruct pattern as [|x p]; [discriminate|].
  split; [discriminate|].
  destruct (re_compile (x :: p)) as [r|]; [|discriminate].
  exists r. auto.
Qed.

Lemma LANGUAGE_MAP_truthy ext lang :
  get_language ext = Some lang -> exists x l, lang = x :: l.
Proof.
  intro H. apply dict_get_In in H.
  assert (Hall : forallb (fun e => negb (length (snd e) =? 0)%nat)
                   LANGUAGE_MAP = true) by (vm_compute; reflexivity).
  rewrite forallb_forall in Hall. specialize (Hall _ H). simpl in Hall.
  destruct lang as [|x l]; [discriminate|]. eauto.
Qed.

(** ** Groups and names *)

Lemma first_set_good_sound a c :
  Forall2 describes a c -> first_set_good a = true ->
  exists g rest, truthy_groups c = g :: rest /\ good g.
Proof.
  induction 1 as [|v o a c Hv Hrest IH]; simpl; [discriminate|].
  destruct v; simpl in Hv; try discriminate.
  - subst o. exact IH.
  - intros _. destruct Hv as (w & -> & Hw).
    destruct w as [|x w]; [destruct Hw; congruence|].
    simpl. eauto.
Qed.

Lemma two_good_sound a c :
  Forall2 describes a c -> two_good a = true ->
  exists g0 g1 rest, truthy_groups c = g0 :: g1 :: rest /\ good g0 /\ good g1.
Proof.
  intros H Ht.
  destruct H as [|v0 o0 a c H0 H]; [discriminate|].
  destruct v0; try discriminate.
  destruct H as [|v1 o1 a c H1 H]; [discriminate|].
  destruct v1; try discriminate.
  simpl in H0, H1.
  destruct H0 as (w0 & -> & Hw0). destruct H1 as (w1 & -> & Hw1).
  destruct w0 as [|x0 w0]; [destruct Hw0; congruence|].
  destruct w1 as [|x1 w1]; [destruct Hw1; congruence|].
  simpl. eauto 6.
Qed.

(** A match of a checked pattern has a group to take the name from, and
    the name is a word. *)
Lemma described_name lang r m :
  names_ok lang r = true -> described r m ->
  truthy_groups m <> [] /\ good (sig_name (match_signature lang m)).
Proof.
  unfold names_ok. intros Hok (a & Hin & Ha).
  rewrite forallb_forall in Hok. specialize (Hok a Hin).
  unfold match_signature, make_signature, map_groups.
  destruct (py_in lang [py "c"; py "cpp"]).
  - destruct (two_good_sound _ _ Ha Hok) as (g0 & g1 & rest & -> & H0 & H1).
    split; [discriminate|].
    destruct (3 <=? length (g0 :: g1 :: rest))%nat; simpl;
      rewrite strip_good; assumption.
  - destruct (first_set_good_sound _ _ Ha Hok) as (g & rest & -> & Hg).
    split; [discriminate|].
    destruct (pystr_eqb lang (py "java")); simpl;
      rewrite strip_good; assumption.
Qed.

(** ** The loop *)

Lemma for_matches_yielded lang it : forall functions,
  fst (for_matches lang it functions)
  = fold_left (fun fs m => loop_body lang m fs) (iter_yielded it) functions.
Proof.
  induction it as [|m rest IH|]; intro functions; simpl; auto.
Qed.

Lemma loop_body_all lang ms : forall functions,
  Forall (fun m => truthy_groups m <> []) ms ->
  fold_left (fun fs m => loop_body lang m fs) ms functions
  = functions ++ map (match_signature lang) ms.
Proof.
  induction ms as [|m ms IH]; intros functions H; simpl.
  - symmetry. apply app_nil_r.
  - inversion H as [|? ? Hm Hms]; subst.
    rewrite (IH _ Hms). unfold loop_body.
    destruct (truthy_groups m); [congruence|].
    rewrite <- app_assoc. reflexivity.
Qed.

Lemma iter_yielded_of_list ms : iter_yielded (iter_of_list ms) = ms.
Proof.
  unfold iter_of_list. induction ms as [|m ms IH]; simpl; congruence.
Qed.

Lemma extract_functions_with_yielded engine content lang pattern :
  dict_get PATTERNS lang = Some pattern ->
  extract_functions_with engine content lang
  = Returns (signatures_of lang (iter_yielded (engine pattern content))).
Proof.
  intro H. unfold extract_functions_with, signatures_of. rewrite H.
  destruct (PATTERNS_lookup _ _ H) as [Hne _].
  destruct pattern as [|x p]; [congruence|].
  rewrite <- for_matches_yielded. cbv zeta.
  destruct (for_matches lang (engine (x :: p) content) []). reflexivity.
Qed.

Section ExtractionFacts.

Variable uni_isalnum : N -> bool.

Lemma finditer_yielded pattern r content :
  re_compile pattern = Some r ->
  iter_yielded (finditer uni_isalnum pattern content)
  = re_finditer uni_isalnum r content.
Proof.
  intro H. unfold finditer. rewrite H. apply iter_yielded_of_list.
Qed.

(** With the patterns of the registry every match adds its signature. *)
Lemma extract_functions_map content lang pattern :
  dict_get PATTERNS lang = Some pattern ->
  extract_functions uni_isalnum content lang
  = Returns (map (match_signature lang)
               (iter_yielded (finditer uni_isalnum pattern content))).
Proof.
  intro H. unfold extract_functions.
  rewrite (extract_functions_with_yielded _ _ _ _ H).
  destruct (PATTERNS_lookup _ _ H) as (_ & r & Hr & Hok).
  rewrite (finditer_yielded _ _ _ Hr).
  unfold signatures_of. rewrite loop_body_all; [reflexivity|].
  eapply Forall_impl; [|apply re_finditer_sound].
  intros m Hm. apply (described_name lang r m Hok Hm).
Qed.

End ExtractionFacts.

(** ** The scan never runs out of fuel *)

Section Fuel.

Variable uni_isalnum : N -> bool.

Lemma finditer_from_fuel r (fuel : nat) :
  forall (must : bool) s (extra : nat),
  (2 * length s + (if must then 0 else 1) < fuel)%nat ->
  finditer_from uni_isalnum (fuel + extra)%nat r must s
  = finditer_from uni_isalnum fuel r must s.
Proof.
  induction fuel as [|fuel IH]; intros must s extra Hlt; [lia|].
  simpl.
  destruct (search uni_isalnum r must s) as [[[s0 s'] c]|] eqn:E;
    [|reflexivity].
  f_equal. apply IH.
  destruct (search_sound _ _ _ _ _ _ _ E) as (_ & [Hle1 Hle2] & Hadv).
  destruct (Nat.eqb_spec (length s') (length s0)) as [Heq|Hne].
  - destruct must; [specialize (Hadv eq_refl Heq)|]; lia.
  - destruct must; lia.
Qed.

(** More fuel than [re_finditer] takes changes nothing. *)
Lemma re_finditer_fuel r content (extra : nat) :
  finditer_from uni_isalnum (2 * length content + 2 + extra)%nat r false
    content
  = re_finditer uni_isalnum r content.
Proof. apply finditer_from_fuel. lia. Qed.

End Fuel.

(** * The claims *)

(** ** C1: a failure while matching *)

(** C1, as stated, fails: when the iterator raises after it has yielded a
    match, [extract_functions] returns the signatures appended so far, not
    the empty list.  Here the engine finds the one function of the content
    and raises on the next step. *)
Lemma C1_partial_result_counterexample :
  exists engine content lang pattern,
    dict_get PATTERNS lang = Some pattern
    /\ iter_raises (engine pattern content) = true
    /\ extract_functions_with engine content lang <> Returns [].
Proof.
  exists (fun p c => failing_after 1 (finditer is_ascii_alnum p c)),
    (py "int add(int a, int b) {"), (py "c"), (pattern_of (py "c")).
  split; [reflexivity|]. split; [vm_compute; reflexivity|].
  vm_compute. discriminate.
Qed.

(** C1 (amended): for every content and every language with a pattern, when
    the matching raises at any point, the exception does not reach the
    caller and [extract_functions] returns exactly the signatures of the
    matches yielded before the failure; the result is empty when nothing
    was yielded before it. *)
Theorem C1_failure_returns_earlier_signatures
    (engine : pystr -> pystr -> match_iter) (content lang pattern : pystr) :
  dict_get PATTERNS lang = Some pattern ->
  iter_raises (engine pattern content) = true ->
  extract_functions_with engine content lang
  = Returns (signatures_of lang (iter_yielded (engine pattern content)))
  /\ (iter_yielded (engine pattern content) = [] ->
      extract_functions_with engine content lang = Returns []).
Proof.
  intros Hp _. rewrite (extract_functions_with_yielded _ _ _ _ Hp).
  split; [reflexivity|]. intros ->. reflexivity.
Qed.

Lemma C1_failure_witness :
  let engine := fun p c => failing_after 1 (finditer is_ascii_alnum p c) in
  let content := py "int add(int a, int b) {" in
  dict_get PATTERNS (py "c") = Some (pattern_of (py "c"))
  /\ iter_raises (engine (pattern_of (py "c")) content) = true
  /\ extract_functions_with engine content (py "c")
     = Returns [ {| sig_name := py "add";
                    sig_args := py "int a, int b";
                    sig_return := py "int" |} ].
Proof.
  intros engine content.
  assert (Hp : dict_get PATTERNS (py "c") = Some (pattern_of (py "c")))
    by reflexivity.
  assert (Hr : iter_raises (engine (pattern_of (py "c")) content) = true)
    by (vm_compute; reflexivity).
  split; [exact Hp|]. split; [exact Hr|].
  rewrite (proj1 (C1_failure_returns_earlier_signatures
                    engine content (py "c") (pattern_of (py "c")) Hp Hr)).
  vm_compute. reflexivity.
Defined.

(** ** C2, C10: the fields of a C or C++ match *)

(** C2: for C and C++, a match with at least three non-empty groups gives
    the dictionary whose return type comes from group 0, name from group 1
    and arguments from group 2, each stripped (and then cleaned up by lines
    95-96). *)
Theorem C2_c_family_three_groups
    (lang : pystr) (m : captures) (g0 g1 g2 : pystr) (rest : list pystr)
    (functions : list Signature) :
  py_in lang [py "c"; py "cpp"] = true ->
  truthy_groups m = g0 :: g1 :: g2 :: rest ->
  map_groups lang (truthy_groups m) = (strip g1, strip g2, strip g0)
  /\ loop_body lang m functions
     = functions ++ [ {| sig_name := strip g1;
                         sig_args := collapse (strip g2);
                         sig_return := collapse (strip g0) |} ].
Proof.
  intros Hlang Hm.
  assert (Hmap : map_groups lang (truthy_groups m)
                 = (strip g1, strip g2, strip g0)).
  { unfold map_groups. rewrite Hlang, Hm. reflexivity. }
  split; [exact Hmap|].
  unfold loop_body, match_signature. rewrite Hmap. rewrite Hm. reflexivity.
Qed.

Lemma C2_three_groups_witness :
  let m := [Some (py "int"); Some (py "add"); Some (py "int a,  int b ")] in
  py_in (py "cpp") [py "c"; py "cpp"] = true
  /\ truthy_groups m = [py "int"; py "add"; py "int a,  int b "]
  /\ loop_body (py "cpp") m []
     = [ {| sig_name := py "add";
            sig_args := py "int a, int b";
            sig_return := py "int" |} ].
Proof.
  intro m.
  assert (Hl : py_in (py "cpp") [py "c"; py "cpp"] = true) by reflexivity.
  assert (Hm : truthy_groups m = [py "int"; py "add"; py "int a,  int b "])
    by reflexivity.
  split; [exact Hl|]. split; [exact Hm|].
  rewrite (proj2 (C2_c_family_three_groups (py "cpp") m _ _ _ _ [] Hl Hm)).
  vm_compute. reflexivity.
Defined.

(** C10: for C and C++, a match with exactly two non-empty groups gives the
    dictionary whose name is group 0, the return-type token, with empty
    arguments and return type. *)
Theorem C10_c_family_two_groups
    (lang : pystr) (m : captures) (g0 g1 : pystr)
    (functions : list Signature) :
  py_in lang [py "c"; py "cpp"] = true ->
  truthy_groups m = [g0; g1] ->
  loop_body lang m functions
  = functions ++ [ {| sig_name := strip g0;
                      sig_args := [];
                      sig_return := [] |} ].
Proof.
  intros Hlang Hm.
  unfold loop_body, match_signature, map_groups.
  rewrite Hlang, Hm. reflexivity.
Qed.

Lemma C10_two_groups_witness :
  let m := [Some (py "int"); Some (py "add"); Some []] in
  py_in (py "c") [py "c"; py "cpp"] = true
  /\ truthy_groups m = [py "int"; py "add"]
  /\ loop_body (py "c") m []
     = [ {| sig_name := py "int"; sig_args := []; sig_return := [] |} ].
Proof.
  intro m.
  assert (Hl : py_in (py "c") [py "c"; py "cpp"] = true) by reflexivity.
  assert (Hm : truthy_groups m = [py "int"; py "add"]) by reflexivity.
  split; [exact Hl|]. split; [exact Hm|].
  rewrite (C10_c_family_two_groups (py "c") m _ _ [] Hl Hm).
  vm_compute. reflexivity.
Defined.

(** ** C8: the clean-up *)

(** C8: collapsing twice is collapsing once. *)
Theorem C8_collapse_idempotent (s : pystr) :
  collapse (collapse s) = collapse s.
Proof.
  unfold collapse. rewrite split_join; [reflexivity|]. apply split_good.
Qed.

Section Claims.

Variable uni_isalnum : N -> bool.

(** The declaration with an empty parameter list: the pattern for C leaves
    two non-empty groups, and the name is the return type. *)
Example extract_c_empty_parameters :
  extract_functions uni_isalnum (py "int add() {") (py "c")
  = Returns [ {| sig_name := py "int"; sig_args := []; sig_return := [] |} ].
Proof. vm_compute. reflexivity. Qed.

(** ** C3, C4: two declarations *)

(** C3: the C declaration [int add(int a, int b) {] gives the one signature
    with name [add], arguments [int a, int b] and return type [int]. *)
Theorem C3_c_add :
  extract_functions uni_isalnum (py "int add(int a, int b) {") (py "c")
  = Returns [ {| sig_name := py "add";
                 sig_args := py "int a, int b";
                 sig_return := py "int" |} ].
Proof. vm_compute. reflexivity. Qed.

(** C4: the arrow function [const sum = (a, b) => {] gives the one signature
    with name [sum], arguments [a, b] and an empty return type. *)
Theorem C4_javascript_arrow :
  extract_functions uni_isalnum (py "const sum = (a, b) => {")
    (py "javascript")
  = Returns [ {| sig_name := py "sum";
                 sig_args := py "a, b";
                 sig_return := [] |} ].
Proof. vm_compute. reflexivity. Qed.

(** ** C5: names *)

(** C5: every signature that [extract_functions] returns, for any content
    and language, has a name that is not empty after stripping. *)
Theorem C5_names_not_empty
    (content lang : pystr) (sigs : list Signature) (sg : Signature) :
  extract_functions uni_isalnum content lang = Returns sigs ->
  In sg sigs ->
  strip (sig_name sg) <> [].
Proof.
  intros Hex Hin.
  destruct (dict_get PATTERNS lang) as [pattern|] eqn:Hp.
  - rewrite (extract_functions_map _ _ _ _ Hp) in Hex.
    injection Hex as <-.
    apply in_map_iff in Hin. destruct Hin as (m & <- & Hm).
    destruct (PATTERNS_lookup _ _ Hp) as (_ & r & Hr & Hok).
    rewrite (finditer_yielded _ _ _ _ Hr) in Hm.
    pose proof (re_finditer_sound uni_isalnum r content) as Hall.
    rewrite Forall_forall in Hall.
    destruct (described_name lang r m Hok (Hall m Hm)) as [_ Hgood].
    rewrite (strip_good _ Hgood). apply Hgood.
  - unfold extract_functions, extract_functions_with in Hex.
    rewrite Hp in Hex. injection Hex as <-. destruct Hin.
Qed.

(** ** C9: nothing to find *)

(** C9: when the language has no pattern, or its pattern finds no match in
    the content, [extract_functions] returns the empty list and raises
    nothing. *)
Theorem C9_no_match_empty (content lang : pystr) :
  dict_get PATTERNS lang = None
  \/ (exists pattern r,
        dict_get PATTERNS lang = Some pattern
        /\ re_compile pattern = Some r
        /\ re_finditer uni_isalnum r content = []) ->
  extract_functions uni_isalnum content lang = Returns [].
Proof.
  intros [Hnone | (pattern & r & Hp & Hr & Hno)].
  - unfold extract_functions, extract_functions_with. rewrite Hnone.
    reflexivity.
  - rewrite (extract_functions_map _ _ _ _ Hp).
    rewrite (finditer_yielded _ _ _ _ Hr), Hno. reflexivity.
Qed.

End Claims.

(** ** C6, C7: the per-file step *)

Section TraversalClaims.

Variable uni_isalnum : N -> bool.

Lemma visit_file_ignored sub f st :
  py_in (splitext_ext (f_name f)) IGNORE_EXTS = true ->
  visit_file uni_isalnum sub f st = st.
Proof. intro H. unfold visit_file. rewrite H. reflexivity. Qed.

Lemma visit_file_listed sub f st :
  py_in (splitext_ext (f_name f)) IGNORE_EXTS = false ->
  tree_lines (visit_file uni_isalnum sub f st)
  = tree_lines st ++ [tree_line sub f].
Proof.
  intro H. unfold visit_file. rewrite H.
  destruct (try_extract uni_isalnum f _) as [funcs calls]. reflexivity.
Qed.

Lemma visit_file_calls sub f st :
  py_in (splitext_ext (f_name f)) IGNORE_EXTS = false ->
  extract_calls (visit_file uni_isalnum sub f st)
  = extract_calls st
    ++ snd (try_extract uni_isalnum f
              (get_language (splitext_ext (f_name f)))).
Proof.
  intro H. unfold visit_file. rewrite H.
  destruct (try_extract uni_isalnum f _) as [funcs calls]. reflexivity.
Qed.

(** Every file whose extension is not ignored gets its line, in the order of
    the traversal. *)
Lemma visit_files_listed sub files : forall st,
  tree_lines (visit_files uni_isalnum sub files st)
  = tree_lines st
    ++ map (tree_line sub)
         (filter (fun f => negb (py_in (splitext_ext (f_name f)) IGNORE_EXTS))
                 files).
Proof.
  unfold visit_files.
  induction files as [|f files IH]; intro st; cbn [fold_left filter map].
  - symmetry. apply app_nil_r.
  - rewrite IH.
    destruct (py_in (splitext_ext (f_name f)) IGNORE_EXTS) eqn:E;
      cbn [negb map].
    + rewrite (visit_file_ignored _ _ _ E). reflexivity.
    + rewrite (visit_file_listed _ _ _ E), <- app_assoc. reflexivity.
Qed.

(** C6 (amended): a file whose extension is not ignored appears in the tree
    listing.  Extraction is attempted on it when its size is below 102,400
    bytes, its content can be read and its extension maps to a language;
    it is not attempted when the size is above 102,400 bytes, when the size
    or the content cannot be read, or when the extension maps to no
    language. *)
Theorem C6_extraction_guard
    (subindent : pystr) (f : file_entry) (st : walk_state) :
  py_in (splitext_ext (f_name f)) IGNORE_EXTS = false ->
  let ext := splitext_ext (f_name f) in
  let st' := visit_file uni_isalnum subindent f st in
  tree_lines st' = tree_lines st ++ [tree_line subindent f]
  /\ (forall size content lang,
        f_getsize f = Returns size -> size < MAX_FILE_SIZE_BYTES ->
        f_read f = Returns content -> get_language ext = Some lang ->
        extract_calls st' = extract_calls st ++ [(content, lang)])
  /\ (forall size,
        f_getsize f = Returns size -> MAX_FILE_SIZE_BYTES < size ->
        extract_calls st' = extract_calls st)
  /\ (f_getsize f = Raises \/ f_read f = Raises \/ get_language ext = None ->
      extract_calls st' = extract_calls st).
Proof.
  intros Hext ext st'. subst st'.
  split; [apply visit_file_listed, Hext|].
  rewrite (visit_file_calls _ _ _ Hext). fold ext.
  unfold try_extract. repeat split.
  - intros size content lang Hsize Hlt Hread Hlang.
    rewrite Hsize, Hread, Hlang.
    apply N.ltb_lt in Hlt. rewrite Hlt.
    destruct (LANGUAGE_MAP_truthy _ _ Hlang) as (x & l & ->).
    destruct (extract_functions uni_isalnum content (x :: l)); reflexivity.
  - intros size Hsize Hgt. rewrite Hsize.
    destruct (N.ltb_spec size MAX_FILE_SIZE_BYTES); [lia|].
    apply app_nil_r.
  - intros [Hsize | [Hread | Hlang]].
    + rewrite Hsize. apply app_nil_r.
    + rewrite Hread.
      destruct (f_getsize f) as [size|]; [|apply app_nil_r].
      destruct (size <? MAX_FILE_SIZE_BYTES); apply app_nil_r.
    + rewrite Hlang.
      destruct (f_getsize f) as [size|]; [|apply app_nil_r].
      destruct (size <? MAX_FILE_SIZE_BYTES); [|apply app_nil_r].
      destruct (f_read f); apply app_nil_r.
Qed.

(** At the limit itself the guard of line 136 is false. *)
Lemma visit_file_at_limit sub f st :
  f_getsize f = Returns MAX_FILE_SIZE_BYTES ->
  extract_calls (visit_file uni_isalnum sub f st) = extract_calls st.
Proof.
  intro Hsize. unfold visit_file.
  destruct (py_in (splitext_ext (f_name f)) IGNORE_EXTS); [reflexivity|].
  unfold try_extract. rewrite Hsize.
  rewrite N.ltb_irrefl. simpl. apply app_nil_r.
Qed.

(** C7 (amended): for a file whose extension is not ignored and maps to a
    language, whose size is below 102,400 bytes and whose content can be
    read: when the content has more than 25 matches of the language's
    pattern, the entry recorded for the file holds exactly 25 signatures,
    those of the first 25 matches, in the order of the matches. *)
Theorem C7_first_25
    (subindent : pystr) (f : file_entry) (st : walk_state)
    (size : N) (content lang pattern : pystr) :
  py_in (splitext_ext (f_name f)) IGNORE_EXTS = false ->
  f_getsize f = Returns size -> size < MAX_FILE_SIZE_BYTES ->
  f_read f = Returns content ->
  get_language (splitext_ext (f_name f)) = Some lang ->
  dict_get PATTERNS lang = Some pattern ->
  (25 < length (iter_yielded (finditer uni_isalnum pattern content)))%nat ->
  let matches := iter_yielded (finditer uni_isalnum pattern content) in
  let recorded := map (match_signature lang) (firstn 25 matches) in
  files_data (visit_file uni_isalnum subindent f st)
  = files_data st
    ++ [ {| fi_path := f_rel_path f; fi_functions := recorded |} ]
  /\ length recorded = 25%nat.
Proof.
  intros Hext Hsize Hlt Hread Hlang Hp Hmany matches recorded.
  subst recorded. fold matches in Hmany.
  split.
  - unfold visit_file. rewrite Hext. unfold try_extract.
    rewrite Hsize, Hread, Hlang.
    apply N.ltb_lt in Hlt. rewrite Hlt.
    destruct (LANGUAGE_MAP_truthy _ _ Hlang) as (x & l & ->).
    rewrite (extract_functions_map _ _ _ _ Hp). fold matches.
    destruct matches as [|m ms] eqn:E; [simpl in Hmany; lia|].
    rewrite <- E. rewrite firstn_map. rewrite E at 1. reflexivity.
  - rewrite length_map, length_firstn. lia.
Qed.

End TraversalClaims.

(** C6, as stated, fails.  A small text file is not above the ceiling, and
    no extraction is attempted on it, since its extension maps to no
    language; and a C file of exactly 102,400 bytes is not above the
    ceiling either, and the guard of line 136 keeps it from being read. *)
Lemma C6_not_above_ceiling_counterexample :
  (f_getsize notes_file = Returns 12 /\ 12 <= MAX_FILE_SIZE_BYTES
   /\ forall uni_isalnum subindent st,
        extract_calls (visit_file uni_isalnum subindent notes_file st)
        = extract_calls st)
  /\ (f_getsize limit_c_file = Returns 102400
      /\ 102400 <= MAX_FILE_SIZE_BYTES
      /\ forall uni_isalnum subindent st,
           extract_calls (visit_file uni_isalnum subindent limit_c_file st)
           = extract_calls st).
Proof.
  split; (split; [reflexivity|]); (split; [vm_compute; discriminate|]).
  - intros W sub st. unfold visit_file. simpl. apply app_nil_r.
  - intros W sub st. apply visit_file_at_limit. reflexivity.
Qed.

(** A file that is not read records nothing, whatever it holds. *)
Lemma visit_file_not_read uni_isalnum sub f st size :
  f_getsize f = Returns size -> MAX_FILE_SIZE_BYTES <= size ->
  files_data (visit_file uni_isalnum sub f st) = files_data st.
Proof.
  intros Hsize Hge. unfold visit_file.
  destruct (py_in (splitext_ext (f_name f)) IGNORE_EXTS); [reflexivity|].
  unfold try_extract. rewrite Hsize.
  destruct (N.ltb_spec size MAX_FILE_SIZE_BYTES); [lia|]. reflexivity.
Qed.

(** C7, as stated, fails.  A C file of 102,400 bytes whose content has 26
    matches is not read, since the guard of line 136 is false at that
    size: no entry is recorded for it, not one of 25 signatures.  The same
    holds of the file of 102,401 bytes. *)
Lemma C7_file_not_read_counterexample :
  (f_getsize limit_many_c_file = Returns 102400
   /\ f_read limit_many_c_file = Returns many_functions_at_limit
   /\ N.of_nat (length many_functions_at_limit) = 102400
   /\ get_language (splitext_ext (f_name limit_many_c_file)) = Some (py "c")
   /\ length (iter_yielded
                (finditer is_ascii_alnum (pattern_of (py "c"))
                   many_functions_at_limit)) = 26%nat
   /\ forall uni_isalnum subindent st,
        files_data (visit_file uni_isalnum subindent limit_many_c_file st)
        = files_data st)
  /\ (f_getsize oversized_many_c_file = Returns 102401
      /\ f_read oversized_many_c_file
         = Returns (many_functions_at_limit ++ [ch "/"])
      /\ length (iter_yielded
                   (finditer is_ascii_alnum (pattern_of (py "c"))
                      (many_functions_at_limit ++ [ch "/"]))) = 26%nat
      /\ forall uni_isalnum subindent st,
           files_data
             (visit_file uni_isalnum subindent oversized_many_c_file st)
           = files_data st).
Proof.
  split.
  - split; [reflexivity|]. split; [reflexivity|].
    split; [vm_compute; reflexivity|]. split; [vm_compute; reflexivity|].
    split; [vm_compute; reflexivity|].
    intros W sub st.
    apply (visit_file_not_read W sub limit_many_c_file st 102400);
      [reflexivity | vm_compute; discriminate].
  - split; [reflexivity|]. split; [reflexivity|].
    split; [vm_compute; reflexivity|].
    intros W sub st.
    apply (visit_file_not_read W sub oversized_many_c_file st 102401);
      [reflexivity | vm_compute; discriminate].
Qed.

(** ** Witnesses *)

Lemma C6_guard_witness :
  py_in (splitext_ext (f_name small_c_file)) IGNORE_EXTS = false
  /\ extract_calls (visit_file is_ascii_alnum [] small_c_file empty_walk)
     = [(py "int add(int a, int b) {", py "c")].
Proof.
  assert (Hext : py_in (splitext_ext (f_name small_c_file)) IGNORE_EXTS
                 = false) by (vm_compute; reflexivity).
  split; [exact Hext|].
  destruct (C6_extraction_guard is_ascii_alnum [] small_c_file empty_walk Hext)
    as (_ & Hsmall & _).
  rewrite (Hsmall 23 (py "int add(int a, int b) {") (py "c")
             eq_refl eq_refl eq_refl eq_refl).
  reflexivity.
Defined.

Lemma C7_first_25_witness :
  py_in (splitext_ext (f_name long_c_file)) IGNORE_EXTS = false
  /\ (25 < length (iter_yielded
                     (finditer is_ascii_alnum (pattern_of (py "c"))
                        many_functions)))%nat
  /\ map (fun fi => (fi_path fi, length (fi_functions fi)))
         (files_data (visit_file is_ascii_alnum [] long_c_file empty_walk))
     = [(py "src/many.c", 25%nat)].
Proof.
  assert (Hext : py_in (splitext_ext (f_name long_c_file)) IGNORE_EXTS
                 = false) by (vm_compute; reflexivity).
  assert (Hmany : (25 < length (iter_yielded
                     (finditer is_ascii_alnum (pattern_of (py "c"))
                        many_functions)))%nat)
    by (vm_compute; repeat constructor).
  split; [exact Hext|]. split; [exact Hmany|].
  destruct (C7_first_25 is_ascii_alnum [] long_c_file empty_walk
              390 many_functions (py "c") (pattern_of (py "c"))
              Hext eq_refl eq_refl eq_refl eq_refl eq_refl Hmany)
    as [Hdata Hlen].
  rewrite Hdata. cbn [files_data empty_walk app map fi_path fi_functions].
  rewrite Hlen. reflexivity.
Defined.

Lemma C5_names_witness :
  let sg := {| sig_name := py "add";
               sig_args := py "int a, int b";
               sig_return := py "int" |} in
  extract_functions is_ascii_alnum (py "int add(int a, int b) {") (py "c")
  = Returns [sg]
  /\ In sg [sg]
  /\ strip (sig_name sg) <> [].
Proof.
  intro sg.
  assert (Hex : extract_functions is_ascii_alnum
                  (py "int add(int a, int b) {") (py "c") = Returns [sg])
    by (vm_compute; reflexivity).
  assert (Hin : In sg [sg]) by (left; reflexivity).
  split; [exact Hex|]. split; [exact Hin|].
  exact (C5_names_not_empty is_ascii_alnum _ _ _ sg Hex Hin).
Defined.

Lemma C9_no_match_witness :
  dict_get PATTERNS (py "c") = Some (pattern_of (py "c"))
  /\ re_compile (pattern_of (py "c")) = Some pat_c
  /\ re_finditer is_ascii_alnum pat_c (py "hello world") = []
  /\ extract_functions is_ascii_alnum (py "hello world") (py "c") = Returns [].
Proof.
  assert (Hp : dict_get PATTERNS (py "c") = Some (pattern_of (py "c")))
    by reflexivity.
  assert (Hr : re_compile (pattern_of (py "c")) = Some pat_c)
    by (vm_compute; reflexivity).
  assert (Hno : re_finditer is_ascii_alnum pat_c (py "hello world") = [])
    by (vm_compute; reflexivity).
  split; [exact Hp|]. split; [exact Hr|]. split; [exact Hno|].
  apply (C9_no_match_empty is_ascii_alnum (py "hello world") (py "c")).
  right. exists (pattern_of (py "c")), pat_c. repeat split; assumption.
Defined.

(** * Further properties *)

(** ** More on strings *)

Lemma lstrip_idempotent s : lstrip (lstrip s) = lstrip s.
Proof.
  induction s as [|c s IH]; simpl; [reflexivity|].
  destruct (isspace c) eqn:E; [exact IH|]. simpl. rewrite E. reflexivity.
Qed.

Lemma lstrip_snoc v x :
  isspace x = false -> lstrip (v ++ [x]) = lstrip v ++ [x].
Proof.
  intro Hx. induction v as [|c v IH]; simpl.
  - rewrite Hx. reflexivity.
  - destruct (isspace c); [exact IH | reflexivity].
Qed.

Lemma lstrip_head s :
  lstrip s = [] \/ exists x t, lstrip s = x :: t /\ isspace x = false.
Proof.
  induction s as [|c s IH]; simpl; [left; reflexivity|].
  destruct (isspace c) eqn:E; [exact IH|]. right. eauto.
Qed.

Lemma rstrip_idempotent u : rstrip (rstrip u) = rstrip u.
Proof.
  unfold rstrip. rewrite rev_involutive, lstrip_idempotent. reflexivity.
Qed.

Lemma lstrip_rstrip x t :
  isspace x = false -> lstrip (rstrip (x :: t)) = rstrip (x :: t).
Proof.
  intro Hx. unfold rstrip. simpl rev.
  rewrite (lstrip_snoc _ _ Hx), rev_app_distr. simpl.
  rewrite Hx. reflexivity.
Qed.

Lemma strip_idempotent s : strip (strip s) = strip s.
Proof.
  unfold strip.
  destruct (lstrip_head s) as [-> | (x & t & -> & Hx)]; [reflexivity|].
  rewrite (lstrip_rstrip _ _ Hx). apply rstrip_idempotent.
Qed.

Lemma collapse_spaced_words s : spaced_words (collapse s).
Proof. exists (split s). split; [apply split_good | reflexivity]. Qed.

Lemma nospaceb_one_line w : nospaceb w = true -> one_line w.
Proof.
  unfold nospaceb, one_line. rewrite forallb_forall, Forall_forall.
  intros H c Hc Hsp. specialize (H c Hc). rewrite Hsp in H. discriminate.
Qed.

Lemma join_one_line ws : Forall good ws -> one_line (join [ch " "] ws).
Proof.
  induction 1 as [|w ws [_ Hw] Hws IH]; [constructor|].
  destruct ws as [|w2 ws]; [apply nospaceb_one_line, Hw|].
  rewrite join_cons. unfold one_line in *.
  apply Forall_app. split; [apply (nospaceb_one_line _ Hw)|].
  constructor; [reflexivity | exact IH].
Qed.

Lemma spaced_words_one_line s : spaced_words s -> one_line s.
Proof. intros (ws & Hws & ->). apply join_one_line, Hws. Qed.

(** ** More on the matcher *)

Section MatcherBounds.

Variable uni_isalnum : N -> bool.

Lemma match_at_consumes r must s s' c :
  nonnull r = true ->
  match_at uni_isalnum r must s = Some (s', c) ->
  (length s' < length s)%nat.
Proof.
  unfold match_at. intros Hnn H.
  destruct (rmatch_sound _ _ _ _ _ _ _ _ H (describes_unset (ngroups r)))
    as (w & s1 & c1 & a1 & -> & Hk & _ & _ & _ & Hne).
  destruct (must && (length s1 =? length (w ++ s1))%nat); [discriminate|].
  injection Hk as -> ->.
  rewrite length_app. destruct w; [elim (Hne Hnn); reflexivity|].
  simpl. lia.
Qed.

Lemma search_consumes r s : forall must s0 s' c,
  nonnull r = true ->
  search uni_isalnum r must s = Some (s0, s', c) ->
  (length s' < length s)%nat.
Proof.
  induction s as [|x s IH]; intros must s0 s' c Hnn H; simpl in H.
  - destruct (match_at uni_isalnum r must []) as [[s1 c1]|] eqn:E;
      [|discriminate].
    injection H as <- <- <-. apply (match_at_consumes _ _ _ _ _ Hnn E).
  - destruct (match_at uni_isalnum r must (x :: s)) as [[s1 c1]|] eqn:E.
    + injection H as <- <- <-. apply (match_at_consumes _ _ _ _ _ Hnn E).
    + specialize (IH _ _ _ _ Hnn H). simpl. lia.
Qed.

Lemma finditer_from_length r fuel : forall must s,
  nonnull r = true ->
  (length (finditer_from uni_isalnum fuel r must s) <= length s)%nat.
Proof.
  induction fuel as [|fuel IH]; intros must s Hnn; simpl; [lia|].
  destruct (search uni_isalnum r must s) as [[[s0 s'] c]|] eqn:E;
    [|simpl; lia].
  pose proof (search_consumes _ _ _ _ _ _ Hnn E).
  specialize (IH (length s' =? length s0)%nat s' Hnn). simpl. lia.
Qed.

End MatcherBounds.

Lemma PATTERNS_nonnull lang pattern r :
  dict_get PATTERNS lang = Some pattern ->
  re_compile pattern = Some r -> nonnull r = true.
Proof.
  intros H Hr. apply dict_get_In in H.
  assert (Hall : forallb (fun e => match re_compile (snd e) with
                                   | Some r => nonnull r
                                   | None => false
                                   end) PATTERNS = true)
    by (vm_compute; reflexivity).
  rewrite forallb_forall in Hall. specialize (Hall _ H). simpl in Hall.
  rewrite Hr in Hall. exact Hall.
Qed.

Lemma truthy_groups_set_count a c :
  Forall2 describes a c -> (length (truthy_groups c) <= set_count a)%nat.
Proof.
  unfold set_count.
  induction 1 as [|v o a c Hv Hrest IH]; simpl; [lia|].
  destruct v; simpl in *.
  - subst o. exact IH.
  - destruct o as [[|x w]|]; simpl; lia.
  - destruct o as [[|x w]|]; simpl; lia.
Qed.

Lemma map_groups_name lang groups :
  exists x, fst (fst (map_groups lang groups)) = strip x.
Proof.
  unfold map_groups.
  destruct (py_in lang [py "c"; py "cpp"]).
  - destruct (3 <=? length groups)%nat; simpl; eauto.
  - destruct (pystr_eqb lang (py "java")); simpl; eauto.
Qed.

Lemma match_signature_tidy lang m : tidy (match_signature lang m).
Proof.
  unfold match_signature, make_signature.
  destruct (map_groups_name lang (truthy_groups m)) as (x & Hx).
  destruct (map_groups lang (truthy_groups m)) as [[name args] ret].
  simpl in Hx. subst name. unfold tidy. simpl.
  split; [apply strip_idempotent|].
  split; apply collapse_spaced_words.
Qed.

Lemma for_matches_tidy lang it : forall functions,
  Forall tidy functions ->
  Forall tidy (fst (for_matches lang it functions)).
Proof.
  induction it as [|m rest IH|]; intros functions H; simpl; auto.
  apply IH. unfold loop_body.
  destruct (truthy_groups m); [exact H|].
  apply Forall_app. split; [exact H|].
  constructor; [apply match_signature_tidy | constructor].
Qed.

(** ** [extract_functions] and the registry *)

Lemma PATTERNS_no_return lang pattern :
  dict_get PATTERNS lang = Some pattern ->
  py_in lang NO_RETURN_LANGS = true ->
  py_in lang [py "c"; py "cpp"] = false
  /\ (pystr_eqb lang (py "java") = true
      \/ exists r, re_compile pattern = Some r
                   /\ two_groups_at_most r = true).
Proof.
  intros H Hl. apply dict_get_In in H.
  assert (Hall : forallb no_return_ok PATTERNS = true)
    by (vm_compute; reflexivity).
  rewrite forallb_forall in Hall. specialize (Hall _ H).
  unfold no_return_ok in Hall. cbn [fst snd] in Hall. rewrite Hl in Hall.
  apply andb_prop in Hall. destruct Hall as [Hc Hj].
  apply negb_true_iff in Hc. split; [exact Hc|].
  apply orb_prop in Hj. destruct Hj as [Hj|Hj]; [left; exact Hj|].
  right. destruct (re_compile pattern) as [r|]; [|discriminate]. eauto.
Qed.

Lemma match_signature_no_return lang r m :
  py_in lang [py "c"; py "cpp"] = false ->
  pystr_eqb lang (py "java") = true \/ two_groups_at_most r = true ->
  described r m ->
  sig_return (match_signature lang m) = [].
Proof.
  intros Hc Hj (a & Hin & Ha).
  unfold match_signature, make_signature, map_groups. rewrite Hc.
  destruct (pystr_eqb lang (py "java")); [reflexivity|].
  destruct Hj as [Hj|Hj]; [discriminate|].
  unfold two_groups_at_most in Hj. rewrite forallb_forall in Hj.
  specialize (Hj a Hin). apply Nat.leb_le in Hj.
  pose proof (truthy_groups_set_count _ _ Ha) as Hlen.
  destruct (Nat.ltb_spec 2 (length (truthy_groups m))); [lia|].
  reflexivity.
Qed.

Section ExtractionExtras.

Variable uni_isalnum : N -> bool.

(** X1: with a registered pattern every match that [re.finditer] yields
    adds exactly one signature, in the order of the matches. *)
Theorem X1_one_signature_per_match (content lang pattern : pystr) :
  dict_get PATTERNS lang = Some pattern ->
  extract_functions uni_isalnum content lang
  = Returns (map (match_signature lang)
               (iter_yielded (finditer uni_isalnum pattern content))).
Proof. apply extract_functions_map. Qed.

Lemma extract_functions_bounded
    (content lang : pystr) (sigs : list Signature) :
  extract_functions uni_isalnum content lang = Returns sigs ->
  (length sigs <= length content)%nat.
Proof.
  intro Hex.
  destruct (dict_get PATTERNS lang) as [pattern|] eqn:Hp.
  - rewrite (extract_functions_map _ _ _ _ Hp) in Hex.
    injection Hex as <-.
    destruct (PATTERNS_lookup _ _ Hp) as (_ & r & Hr & _).
    rewrite (finditer_yielded _ _ _ _ Hr), length_map.
    apply finditer_from_length. apply (PATTERNS_nonnull _ _ _ Hp Hr).
  - unfold extract_functions, extract_functions_with in Hex.
    rewrite Hp in Hex. injection Hex as <-. simpl. lia.
Qed.

(** X3: for every content and every language [extract_functions] returns
    a list, and the list has at most as many signatures as the content
    has characters. *)
Theorem X3_signatures_bounded_by_content (content lang : pystr) :
  exists sigs,
    extract_functions uni_isalnum content lang = Returns sigs
    /\ (length sigs <= length content)%nat.
Proof.
  destruct (extract_functions uni_isalnum content lang) as [sigs|] eqn:Hex.
  - exists sigs. split; [reflexivity|].
    apply (extract_functions_bounded _ _ _ Hex).
  - exfalso. unfold extract_functions, extract_functions_with in Hex.
    destruct (dict_get PATTERNS lang) as [[|x p]|]; try discriminate.
    cbv zeta in Hex.
    destruct (for_matches lang (finditer uni_isalnum (x :: p) content) []).
    discriminate.
Qed.

(** X4: for javascript, typescript, dart, java, kotlin, swift and php
    every signature has an empty return type. *)
Theorem X4_no_return_type
    (content lang : pystr) (sigs : list Signature) (sg : Signature) :
  py_in lang NO_RETURN_LANGS = true ->
  extract_functions uni_isalnum content lang = Returns sigs ->
  In sg sigs ->
  sig_return sg = [].
Proof.
  intros Hl Hex Hin.
  destruct (dict_get PATTERNS lang) as [pattern|] eqn:Hp.
  - rewrite (extract_functions_map _ _ _ _ Hp) in Hex.
    injection Hex as <-.
    apply in_map_iff in Hin. destruct Hin as (m & <- & Hm).
    destruct (PATTERNS_lookup _ _ Hp) as (_ & r & Hr & _).
    rewrite (finditer_yielded _ _ _ _ Hr) in Hm.
    pose proof (re_finditer_sound uni_isalnum r content) as Hall.
    rewrite Forall_forall in Hall.
    destruct (PATTERNS_no_return _ _ Hp Hl) as (Hc & Hj).
    apply (match_signature_no_return lang r m Hc); [|apply Hall, Hm].
    destruct Hj as [Hj | (r' & Hr' & Hj)]; [left; exact Hj|].
    right. congruence.
  - unfold extract_functions, extract_functions_with in Hex.
    rewrite Hp in Hex. injection Hex as <-. destruct Hin.
Qed.

End ExtractionExtras.

Lemma LANGUAGE_MAP_patterns ext lang :
  get_language ext = Some lang ->
  exists pattern r,
    dict_get PATTERNS lang = Some pattern /\ re_compile pattern = Some r.
Proof.
  intro H. apply dict_get_In in H.
  assert (Hall : forallb
            (fun e => match dict_get PATTERNS (snd e) with
                      | Some p => match re_compile p with
                                  | Some _ => true
                                  | None => false
                                  end
                      | None => false
                      end) LANGUAGE_MAP = true)
    by (vm_compute; reflexivity).
  rewrite forallb_forall in Hall. specialize (Hall _ H).
  cbn [fst snd] in Hall.
  destruct (dict_get PATTERNS lang) as [p|]; [|discriminate].
  destruct (re_compile p) as [r|] eqn:Er; [|discriminate].
  exists p, r. split; [reflexivity | exact Er].
Qed.

(** X2: the registry has no loose ends: every language that
    [LANGUAGE_MAP] gives for an extension has a pattern in [PATTERNS], and
    the pattern compiles; every language of [PATTERNS] is given for some
    extension. *)
Theorem X2_registry_coherent :
  (forall ext lang,
      get_language ext = Some lang ->
      exists pattern r,
        dict_get PATTERNS lang = Some pattern
        /\ re_compile pattern = Some r)
  /\ (forall lang pattern,
         dict_get PATTERNS lang = Some pattern ->
         exists ext, get_language ext = Some lang).
Proof.
  split; [exact LANGUAGE_MAP_patterns|].
  intros lang pattern H. apply dict_get_In in H.
  assert (Hall : forallb
            (fun e => existsb
               (fun e' => match get_language (fst e') with
                          | Some l => pystr_eqb l (fst e)
                          | None => false
                          end) LANGUAGE_MAP) PATTERNS = true)
    by (vm_compute; reflexivity).
  rewrite forallb_forall in Hall. specialize (Hall _ H).
  cbn [fst snd] in Hall.
  apply existsb_exists in Hall. destruct Hall as ([ext l0] & _ & Hl).
  simpl in Hl. exists ext.
  destruct (get_language ext) as [l|]; [|discriminate].
  apply pystr_eqb_eq in Hl. congruence.
Qed.

(** X5: whatever the matching engine yields and whether or not it raises,
    the fields of every signature returned are clean: the name carries no
    whitespace at either end, and the arguments and the return type are
    words separated by single blanks. *)
Theorem X5_fields_tidy
    (engine : pystr -> pystr -> match_iter) (content lang : pystr)
    (sigs : list Signature) :
  extract_functions_with engine content lang = Returns sigs ->
  Forall tidy sigs.
Proof.
  unfold extract_functions_with.
  destruct (dict_get PATTERNS lang) as [[|x p]|];
    [intros [= <-]; constructor | | intros [= <-]; constructor].
  cbv zeta.
  pose proof (for_matches_tidy lang (engine (x :: p) content) []
                (Forall_nil _)) as H.
  destruct (for_matches lang (engine (x :: p) content) []) as [fs o].
  simpl in H. intros [= <-]. exact H.
Qed.

(** ** The rows of the report *)

Lemma escape_bars_flat_map s : escape_bars s = flat_map escape_char s.
Proof.
  unfold escape_bars, str_replace. simpl.
  induction s as [|c s IH]; [reflexivity|].
  cbn [replace_scan flat_map]. unfold escape_char at 1.
  change (strip_prefix (py "|") (c :: s))
    with (if ch "|" =? c then Some s else None).
  rewrite (N.eqb_sym (ch "|") c).
  destruct (c =? ch "|"); simpl; rewrite <- IH; reflexivity.
Qed.

Lemma escape_bars_length s :
  length (escape_bars s) = (length s + count_occ N.eq_dec s (ch "|"))%nat.
Proof.
  rewrite escape_bars_flat_map.
  induction s as [|c s IH]; [reflexivity|].
  cbn [flat_map count_occ]. rewrite length_app, IH. unfold escape_char.
  destruct (N.eq_dec c (ch "|")) as [->|Hne].
  - simpl. lia.
  - apply N.eqb_neq in Hne. rewrite Hne. simpl. lia.
Qed.

Lemma escape_bars_plain s :
  count_occ N.eq_dec s (ch "|") = 0%nat -> escape_bars s = s.
Proof.
  rewrite escape_bars_flat_map.
  induction s as [|c s IH]; [reflexivity|].
  intro H0. change (flat_map escape_char (c :: s))
    with (escape_char c ++ flat_map escape_char s).
  unfold escape_char at 1.
  destruct (N.eq_dec c (ch "|")) as [->|Hne].
  - rewrite count_occ_cons_eq in H0 by reflexivity. discriminate.
  - rewrite count_occ_cons_neq in H0 by exact Hne.
    apply N.eqb_neq in Hne. rewrite Hne, (IH H0). reflexivity.
Qed.

Lemma bars_escaped_plain v : forall prev,
  forallb (fun c => negb (c =? ch "|")) v = true ->
  bars_escaped_from prev v = true.
Proof.
  induction v as [|c v IH]; intros prev H; simpl in *; [reflexivity|].
  apply andb_prop in H. destruct H as [Hc Hv].
  rewrite Hc, (IH _ Hv). reflexivity.
Qed.

Lemma bars_escaped_app u v : forall prev,
  bars_escaped_from prev u = true ->
  forallb (fun c => negb (c =? ch "|")) v = true ->
  bars_escaped_from prev (u ++ v) = true.
Proof.
  induction u as [|c u IH]; intros prev Hu Hv; simpl in *.
  - apply bars_escaped_plain, Hv.
  - apply andb_prop in Hu. destruct Hu as [Hc Hu].
    rewrite Hc, (IH _ Hu Hv). reflexivity.
Qed.

Lemma bars_escaped_firstn n : forall prev s,
  bars_escaped_from prev s = true ->
  bars_escaped_from prev (firstn n s) = true.
Proof.
  induction n as [|n IH]; intros prev [|c s] H; simpl in *; auto.
  apply andb_prop in H. destruct H as [Hc Hs].
  rewrite Hc, (IH _ _ Hs). reflexivity.
Qed.

Lemma bars_escaped_escape s : forall prev,
  bars_escaped_from prev (escape_bars s) = true.
Proof.
  rewrite escape_bars_flat_map.
  induction s as [|c s IH]; intro prev; [reflexivity|].
  cbn [flat_map]. unfold escape_char.
  destruct (c =? ch "|") eqn:E.
  - simpl. apply IH.
  - simpl. simpl in E. rewrite E. simpl. apply IH.
Qed.

Lemma one_line_app u v : one_line u -> one_line v -> one_line (u ++ v).
Proof. intros Hu Hv. apply Forall_app. split; assumption. Qed.

Lemma one_line_firstn n s : one_line s -> one_line (firstn n s).
Proof.
  unfold one_line. revert s.
  induction n as [|n IH]; intros [|c s] H; simpl; try constructor.
  - inversion H; assumption.
  - apply IH. inversion H; assumption.
Qed.

Lemma one_line_escape s : one_line s -> one_line (escape_bars s).
Proof.
  rewrite escape_bars_flat_map. unfold one_line.
  induction 1 as [|c s Hc Hs IH]; [constructor|].
  cbn [flat_map]. apply Forall_app. split; [|exact IH].
  unfold escape_char. destruct (c =? ch "|").
  - repeat constructor; discriminate.
  - constructor; [exact Hc | constructor].
Qed.

Lemma one_line_literal s :
  forallb (fun c => negb (isspace c) || (c =? ch " ")) s = true ->
  one_line s.
Proof.
  unfold one_line. rewrite forallb_forall, Forall_forall.
  intros H c Hc Hsp. specialize (H c Hc). rewrite Hsp in H. simpl in H.
  apply N.eqb_eq, H.
Qed.

Lemma one_line_inputs_cell s : one_line s -> one_line (inputs_cell s).
Proof.
  intro H. unfold inputs_cell.
  destruct (50 <? length (escape_bars s))%nat.
  - apply one_line_app.
    + apply one_line_firstn, one_line_escape, H.
    + apply one_line_literal. reflexivity.
  - apply one_line_escape, H.
Qed.

Lemma render_row_one_line sg :
  one_line (sig_name sg) -> one_line (sig_args sg) ->
  one_line (sig_return sg) -> one_line (render_row sg).
Proof.
  intros Hn Ha Hr. unfold render_row.
  repeat apply one_line_app;
    try (apply one_line_literal; reflexivity); auto.
  - apply one_line_inputs_cell, Ha.
  - apply one_line_escape, Hr.
Qed.

Lemma inputs_cell_length args : (length (inputs_cell args) <= 50)%nat.
Proof.
  unfold inputs_cell.
  destruct (Nat.ltb_spec 50 (length (escape_bars args))) as [Hlt|Hle].
  - rewrite length_app, length_firstn.
    change (length (py "...")) with 3%nat. lia.
  - exact Hle.
Qed.

(** X8: in the cell of the arguments and in the cell of the return type
    every vertical bar stands directly after a backslash, also when the
    arguments were cut. *)
Theorem X8_bars_escaped (s : pystr) :
  bars_escaped (inputs_cell s) = true
  /\ bars_escaped (escape_bars s) = true.
Proof.
  unfold bars_escaped, inputs_cell. split; [|apply bars_escaped_escape].
  destruct (50 <? length (escape_bars s))%nat.
  - apply bars_escaped_app; [|reflexivity].
    apply bars_escaped_firstn, bars_escaped_escape.
  - apply bars_escaped_escape.
Qed.

(** X7: the cell of the arguments is never longer than 50 characters, and
    the threshold of the cut counts the backslashes of the escaping: the
    arguments are shown in full, escaped, when their length plus the
    number of their vertical bars is at most 50; otherwise the cell is the
    first 47 characters of the escaped text and three dots.  Text without
    a vertical bar is not changed by the escaping. *)
Theorem X7_inputs_cell_cut (args : pystr) :
  let width := (length args + count_occ N.eq_dec args (ch "|"))%nat in
  (length (inputs_cell args) <= 50)%nat
  /\ (if (width <=? 50)%nat
      then inputs_cell args = escape_bars args
      else inputs_cell args = firstn 47 (escape_bars args) ++ py "..."
           /\ length (inputs_cell args) = 50%nat)
  /\ (count_occ N.eq_dec args (ch "|") = 0%nat -> escape_bars args = args).
Proof.
  intro width. subst width. split; [apply inputs_cell_length|]. split.
  - unfold inputs_cell. rewrite <- escape_bars_length.
    destruct (Nat.leb_spec (length (escape_bars args)) 50) as [Hle|Hlt].
    + destruct (Nat.ltb_spec 50 (length (escape_bars args))); [lia|].
      reflexivity.
    + destruct (Nat.ltb_spec 50 (length (escape_bars args))); [|lia].
      split; [reflexivity|].
      rewrite length_app, length_firstn.
      change (length (py "...")) with 3%nat. lia.
  - apply escape_bars_plain.
Qed.

Section RowExtras.

Variable uni_isalnum : N -> bool.

Lemma extract_functions_good_names content lang sigs sg :
  extract_functions uni_isalnum content lang = Returns sigs ->
  In sg sigs -> good (sig_name sg).
Proof.
  intros Hex Hin.
  destruct (dict_get PATTERNS lang) as [pattern|] eqn:Hp.
  - rewrite (extract_functions_map _ _ _ _ Hp) in Hex.
    injection Hex as <-.
    apply in_map_iff in Hin. destruct Hin as (m & <- & Hm).
    destruct (PATTERNS_lookup _ _ Hp) as (_ & r & Hr & Hok).
    rewrite (finditer_yielded _ _ _ _ Hr) in Hm.
    pose proof (re_finditer_sound uni_isalnum r content) as Hall.
    rewrite Forall_forall in Hall.
    apply (described_name lang r m Hok (Hall m Hm)).
  - unfold extract_functions, extract_functions_with in Hex.
    rewrite Hp in Hex. injection Hex as <-. destruct Hin.
Qed.

Lemma extracted_row_one_line content lang sigs sg :
  extract_functions uni_isalnum content lang = Returns sigs ->
  In sg sigs ->
  one_line (render_row sg).
Proof.
  intros Hex Hin.
  assert (Htidy : Forall tidy sigs).
  { unfold extract_functions in Hex. revert Hex.
    unfold extract_functions_with.
    destruct (dict_get PATTERNS lang) as [[|x p]|];
      [intros [= <-]; constructor | | intros [= <-]; constructor].
    cbv zeta.
    pose proof (for_matches_tidy lang (finditer uni_isalnum (x :: p) content)
                  [] (Forall_nil _)) as H.
    destruct (for_matches lang (finditer uni_isalnum (x :: p) content) [])
      as [fs o].
    simpl in H. intros [= <-]. exact H. }
  rewrite Forall_forall in Htidy.
  destruct (Htidy sg Hin) as (_ & Ha & Hr).
  destruct (extract_functions_good_names _ _ _ _ Hex Hin) as [_ Hn].
  apply render_row_one_line.
  - apply nospaceb_one_line, Hn.
  - apply spaced_words_one_line, Ha.
  - apply spaced_words_one_line, Hr.
Qed.

(** X6: the row that the report prints for a signature of
    [extract_functions] is one line: it holds no line break and no
    whitespace other than blanks, whatever the content of the file. *)
Theorem X6_row_is_one_line
    (content lang : pystr) (sigs : list Signature) (sg : Signature) :
  extract_functions uni_isalnum content lang = Returns sigs ->
  In sg sigs ->
  one_line (render_row sg).
Proof. apply extracted_row_one_line. Qed.

End RowExtras.

(** ** Sorting *)

Section SortingFacts.

Variable T : Type.
Variable key : T -> pystr.

Lemma insert_sorted_In x y l :
  In y (insert_sorted key x l) <-> y = x \/ In y l.
Proof.
  induction l as [|z l IH]; simpl.
  - intuition.
  - destruct (pystr_leb (key x) (key z)); simpl; [intuition|].
    rewrite IH. intuition.
Qed.

Lemma sort_by_In y l : In y (sort_by key l) <-> In y l.
Proof.
  induction l as [|x l IH]; simpl; [reflexivity|].
  rewrite insert_sorted_In, IH. intuition.
Qed.

End SortingFacts.

Lemma insert_sorted_map {T : Type} (key : T -> pystr) (g : T -> T) x l :
  (forall y, key (g y) = key y) ->
  insert_sorted key (g x) (map g l) = map g (insert_sorted key x l).
Proof.
  intro Hg. induction l as [|z l IH]; simpl; [reflexivity|].
  rewrite !Hg. destruct (pystr_leb (key x) (key z)); simpl;
    [reflexivity | rewrite IH; reflexivity].
Qed.

Lemma sort_by_map {T : Type} (key : T -> pystr) (g : T -> T) l :
  (forall y, key (g y) = key y) ->
  sort_by key (map g l) = map g (sort_by key l).
Proof.
  intro Hg. induction l as [|x l IH]; simpl; [reflexivity|].
  rewrite IH. apply insert_sorted_map, Hg.
Qed.

(** ** The walk *)

Lemma fold_left_ext {A B : Type} (g h : A -> B -> A) l : forall a,
  (forall x a', In x l -> g a' x = h a' x) ->
  fold_left g l a = fold_left h l a.
Proof.
  induction l as [|x l IH]; intros a H; simpl; [reflexivity|].
  rewrite (H x a (or_introl eq_refl)). apply IH.
  intros y a' Hy. apply H. right. exact Hy.
Qed.

Lemma fold_left_inv {A B : Type} (Q : A -> Prop) (g : A -> B -> A) l :
  forall a,
  (forall x a', In x l -> Q a' -> Q (g a' x)) -> Q a -> Q (fold_left g l a).
Proof.
  induction l as [|x l IH]; intros a H Ha; simpl; [exact Ha|].
  apply IH; [|apply H; [left; reflexivity | exact Ha]].
  intros y a' Hy. apply H. right. exact Hy.
Qed.

Lemma In_firstn {A : Type} (n : nat) (x : A) : forall l,
  In x (firstn n l) -> In x l.
Proof.
  induction n as [|n IH]; intros [|y l]; simpl; try tauto.
  intros [H|H]; [left; exact H | right; apply IH, H].
Qed.

Lemma height_child d' ds :
  In d' ds ->
  (height d' <= fold_right (fun d h => Nat.max (height d) h) 0 ds)%nat.
Proof.
  induction ds as [|d ds IH]; simpl; [intros []|].
  intros [<-|H]; [lia|]. specialize (IH H). lia.
Qed.

Lemma kept_dirs_In d' ds :
  In d' (kept_dirs ds) <->
  In d' ds /\ py_in (dir_name d') IGNORE_DIRS = false.
Proof.
  unfold kept_dirs. rewrite sort_by_In, filter_In, negb_true_iff.
  reflexivity.
Qed.

Lemma all_files_child d' n ds fs f :
  In d' ds -> In f (all_files d') -> In f (all_files (Dir n ds fs)).
Proof.
  intros Hd Hf. simpl. apply in_or_app. right.
  apply in_flat_map. eauto.
Qed.

Section WalkFacts.

Variable uni_isalnum : N -> bool.

(** More fuel than the height of the directory changes nothing. *)
Lemma walk_fuel fuel1 : forall fuel2 start root d st,
  (height d <= fuel1)%nat -> (height d <= fuel2)%nat ->
  walk uni_isalnum fuel1 start root d st
  = walk uni_isalnum fuel2 start root d st.
Proof.
  induction fuel1 as [|f1 IH]; intros fuel2 start root d st H1 H2.
  - destruct d; simpl in H1; lia.
  - destruct fuel2 as [|f2]; [destruct d; simpl in H2; lia|].
    simpl. apply fold_left_ext.
    intros d' st' Hd'. apply kept_dirs_In in Hd'. destruct Hd' as [Hd' _].
    destruct d as [n ds fs]. simpl in Hd', H1, H2.
    pose proof (height_child _ _ Hd').
    apply IH; lia.
Qed.

(** A property of the state that each step on a file keeps and each folder
    line keeps is kept by the walk. *)
Lemma walk_inv (P : file_entry -> Prop) (Q : walk_state -> Prop)
    (start : pystr) :
  (forall root f st,
      P f -> Q st ->
      Q (visit_file uni_isalnum
           (str_times (py "  ") (level_of start root + 1)) f st)) ->
  (forall root st,
      (0 < level_of start root)%nat -> Q st ->
      Q (add_line (folder_line (level_of start root) root) st)) ->
  forall fuel root d st,
    Forall P (all_files d) -> Q st ->
    Q (walk uni_isalnum fuel start root d st).
Proof.
  intros Hfile Hline.
  induction fuel as [|fuel IH]; intros root d st HP HQ; [exact HQ|].
  destruct d as [n ds fs]. simpl.
  rewrite Forall_forall in HP.
  apply fold_left_inv.
  - intros d' st' Hd' HQ'. apply kept_dirs_In in Hd'.
    destruct Hd' as [Hd' _]. apply IH; [|exact HQ'].
    apply Forall_forall. intros f Hf. apply HP.
    eapply all_files_child; eassumption.
  - unfold visit_files. apply fold_left_inv.
    + intros f st' Hf HQ'. apply Hfile; [|exact HQ'].
      apply HP. simpl. apply in_or_app. left.
      apply sort_by_In in Hf. exact Hf.
    + destruct (Nat.ltb_spec 0 (level_of start root)); [|exact HQ].
      apply (Hline root st); assumption.
Qed.

Lemma visit_file_data sub f st :
  files_data (visit_file uni_isalnum sub f st) = files_data st
  \/ exists fi,
       files_data (visit_file uni_isalnum sub f st) = files_data st ++ [fi]
       /\ entry_of uni_isalnum fi f.
Proof.
  unfold visit_file.
  destruct (py_in (splitext_ext (f_name f)) IGNORE_EXTS) eqn:Hext;
    [left; reflexivity|].
  unfold try_extract.
  destruct (f_getsize f) as [size|] eqn:Hsize; [|left; reflexivity].
  destruct (N.ltb_spec size MAX_FILE_SIZE_BYTES) as [Hlt|];
    [|left; reflexivity].
  destruct (f_read f) as [content|] eqn:Hread; [|left; reflexivity].
  destruct (get_language (splitext_ext (f_name f))) as [[|x l]|] eqn:Hl;
    try (left; reflexivity).
  destruct (extract_functions uni_isalnum content (x :: l))
    as [[|sg sigs]|] eqn:Hex; try (left; reflexivity).
  right. eexists. split; [reflexivity|].
  unfold entry_of. simpl. repeat split; try assumption.
  exists size, content, (x :: l), (sg :: sigs).
  repeat split; try assumption. discriminate.
Qed.

Lemma entry_of_bounded fi f : entry_of uni_isalnum fi f -> entry_bounded fi.
Proof.
  intros (_ & _ & size & content & lang & sigs & _ & _ & _ & _ & _ & Hne & Hfi).
  unfold entry_bounded. rewrite Hfi, length_firstn.
  destruct sigs; [congruence|]. cbn [length]. lia.
Qed.

End WalkFacts.

(** ** [generate_tree]: what the listing and the analysis hold *)

Lemma strip_prefix_self s : forall t, strip_prefix s (s ++ t) = Some t.
Proof.
  induction s as [|c s IH]; intro t; simpl; [reflexivity|].
  rewrite N.eqb_refl. apply IH.
Qed.

Lemma replace_scan_skip old new u : forall k t,
  length u = k ->
  replace_scan old new k (u ++ t) = replace_scan old new 0 t.
Proof.
  induction u as [|c u IH]; intros k t Hk; simpl in *.
  - subst k. reflexivity.
  - destruct k as [|k]; [discriminate|]. apply IH. lia.
Qed.

(** After an occurrence of [old] at the start the scan goes on behind
    it. *)
Lemma replace_scan_prefix c old new t :
  replace_scan (c :: old) new 0 ((c :: old) ++ t)
  = new ++ replace_scan (c :: old) new 0 t.
Proof.
  cbn [app replace_scan].
  change (strip_prefix (c :: old) (c :: old ++ t))
    with (strip_prefix (c :: old) ((c :: old) ++ t)).
  rewrite strip_prefix_self. f_equal.
  apply replace_scan_skip. simpl. lia.
Qed.


Lemma count_scan_char c s :
  count_scan [c] 0 s = count_occ N.eq_dec s c.
Proof.
  induction s as [|x s IH]; [reflexivity|].
  cbn [count_scan strip_prefix length Nat.sub].
  destruct (N.eq_dec x c) as [->|Hne].
  - rewrite N.eqb_refl, count_occ_cons_eq by reflexivity. rewrite IH.
    reflexivity.
  - rewrite count_occ_cons_neq by exact Hne.
    destruct (N.eqb_spec c x); [congruence|]. exact IH.
Qed.

Lemma level_of_self start : level_of start start = 0%nat.
Proof.
  unfold level_of, str_replace, str_count. destruct start as [|c t].
  - reflexivity.
  - pose proof (replace_scan_prefix c t [] []) as H.
    rewrite app_nil_r in H. rewrite H. reflexivity.
Qed.

Section TreeExtras.

Variable uni_isalnum : N -> bool.

Lemma visit_file_tree_prefix sub f st :
  exists rest,
    tree_lines (visit_file uni_isalnum sub f st) = tree_lines st ++ rest.
Proof.
  destruct (py_in (splitext_ext (f_name f)) IGNORE_EXTS) eqn:E.
  - rewrite (visit_file_ignored _ _ _ _ E). exists []. symmetry.
    apply app_nil_r.
  - rewrite (visit_file_listed _ _ _ _ E). eauto.
Qed.

Lemma walk_tree_prefix fuel start root d st :
  exists rest,
    tree_lines (walk uni_isalnum fuel start root d st)
    = tree_lines st ++ rest.
Proof.
  apply (walk_inv uni_isalnum (fun _ => True)
           (fun st' => exists rest, tree_lines st' = tree_lines st ++ rest)
           start).
  - intros root' f st' _ (rest & Hrest).
    destruct (visit_file_tree_prefix
                (str_times (py "  ") (level_of start root' + 1)) f st')
      as (more & Hmore).
    exists (rest ++ more). rewrite Hmore, Hrest. symmetry. apply app_assoc.
  - intros root' st' _ (rest & Hrest). simpl.
    exists (rest ++ [folder_line (level_of start root') root']).
    rewrite Hrest. symmetry. apply app_assoc.
  - apply Forall_forall. intros; exact I.
  - exists []. symmetry. apply app_nil_r.
Qed.

(** X9: the directory that is scanned gets no folder line; the listing
    starts with its files whose extension is not ignored, sorted by name
    and indented by two blanks, and holds nothing else when no directory
    below it is kept. *)
Theorem X9_top_directory_first (start_path : pystr) (d : dir_entry) :
  exists rest,
    fst (generate_tree uni_isalnum start_path (Some d))
    = map (tree_line (py "  "))
        (filter (fun f => negb (py_in (splitext_ext (f_name f)) IGNORE_EXTS))
                (sort_by f_name (dir_files d)))
      ++ rest
    /\ (kept_dirs (dir_dirs d) = [] -> rest = []).
Proof.
  unfold generate_tree. cbn [fst].
  destruct d as [n ds fs]. cbn [height].
  set (h := fold_right (fun d' h => Nat.max (height d') h) 0%nat ds).
  cbn [walk dir_dirs dir_files]. rewrite level_of_self. cbn [Nat.ltb Nat.leb].
  set (st2 := visit_files uni_isalnum _ _ _).
  assert (Hst2 : tree_lines st2
                 = map (tree_line (py "  "))
                     (filter (fun f => negb (py_in (splitext_ext (f_name f))
                                                   IGNORE_EXTS))
                             (sort_by f_name fs))).
  { subst st2. rewrite visit_files_listed. reflexivity. }
  assert (Hfold : forall dirs st,
             exists rest,
               tree_lines
                 (fold_left
                    (fun st' d' =>
                       walk uni_isalnum h start_path
                         (path_join start_path (dir_name d')) d' st')
                    dirs st)
               = tree_lines st ++ rest).
  { induction dirs as [|d' dirs IH]; intro st; simpl.
    - exists []. symmetry. apply app_nil_r.
    - destruct (IH (walk uni_isalnum h start_path
                      (path_join start_path (dir_name d')) d' st))
        as (rest & Hrest).
      destruct (walk_tree_prefix h start_path
                  (path_join start_path (dir_name d')) d' st)
        as (more & Hmore).
      exists (more ++ rest). rewrite Hrest, Hmore. symmetry.
      apply app_assoc. }
  destruct (kept_dirs ds) as [|d' dirs] eqn:Hk.
  - exists []. simpl. rewrite Hst2, app_nil_r. split; reflexivity.
  - destruct (Hfold (d' :: dirs) st2) as (rest & Hrest).
    exists rest. rewrite Hrest, Hst2. split; [reflexivity|discriminate].
Qed.

Lemma generate_tree_bounded start_path top :
  Forall entry_bounded (snd (generate_tree uni_isalnum start_path top)).
Proof.
  unfold generate_tree. cbn [snd].
  destruct top as [d|]; [|constructor].
  apply (walk_inv uni_isalnum (fun _ => True)
           (fun st => Forall entry_bounded (files_data st)) start_path).
  - intros root f st _ HQ.
    destruct (visit_file_data uni_isalnum
                (str_times (py "  ") (level_of start_path root + 1)) f st)
      as [-> | (fi & -> & Hfi)]; [exact HQ|].
    apply Forall_app. split; [exact HQ|].
    constructor; [|constructor]. eapply entry_of_bounded, Hfi.
  - intros root st _ HQ. exact HQ.
  - apply Forall_forall. intros; exact I.
  - constructor.
Qed.

(** X10: every entry of the analysis that [generate_tree] returns holds at
    least one signature and at most 25. *)
Theorem X10_entries_bounded (start_path : pystr) (top : option dir_entry) :
  Forall entry_bounded (snd (generate_tree uni_isalnum start_path top)).
Proof. apply generate_tree_bounded. Qed.

Lemma generate_tree_entries start_path d :
  Forall (fun fi => exists f, In f (all_files d)
                              /\ entry_of uni_isalnum fi f)
    (snd (generate_tree uni_isalnum start_path (Some d))).
Proof.
  unfold generate_tree. cbn [snd].
  apply (walk_inv uni_isalnum (fun f => In f (all_files d))
           (fun st => Forall (fun fi => exists f, In f (all_files d)
                                 /\ entry_of uni_isalnum fi f)
                             (files_data st)) start_path).
  - intros root f st Hf HQ.
    destruct (visit_file_data uni_isalnum
                (str_times (py "  ") (level_of start_path root + 1)) f st)
      as [-> | (fi & -> & Hfi)]; [exact HQ|].
    apply Forall_app. split; [exact HQ|].
    constructor; [|constructor]. eauto.
  - intros root st _ HQ. exact HQ.
  - apply Forall_forall. auto.
  - constructor.
Qed.

(** X12: every entry of the analysis comes from a file of the directory
    tree whose extension is not ignored and maps to a language, whose size
    is below [MAX_FILE_SIZE_BYTES] and whose content could be read; its
    path is the relative path of the file, its functions are the first 25
    signatures of [extract_functions] on the content.  A file without a
    known extension never enters the analysis. *)
Theorem X12_entries_come_from_files
    (start_path : pystr) (d : dir_entry) (fi : file_info) :
  In fi (snd (generate_tree uni_isalnum start_path (Some d))) ->
  exists f, In f (all_files d) /\ entry_of uni_isalnum fi f.
Proof.
  revert fi. apply Forall_forall. apply generate_tree_entries.
Qed.

End TreeExtras.

Lemma filter_idempotent {A : Type} (p : A -> bool) l :
  filter p (filter p l) = filter p l.
Proof.
  induction l as [|x l IH]; simpl; [reflexivity|].
  destruct (p x) eqn:E; simpl; [rewrite E, IH|]; auto.
Qed.

Lemma filter_map_key {A : Type} (p : A -> bool) (g : A -> A) l :
  (forall x, p (g x) = p x) ->
  filter p (map g l) = map g (filter p l).
Proof.
  intro Hg. induction l as [|x l IH]; simpl; [reflexivity|].
  rewrite Hg. destruct (p x); simpl; rewrite IH; reflexivity.
Qed.

Lemma prune_name d : dir_name (prune d) = dir_name d.
Proof. destruct d. reflexivity. Qed.

Lemma prune_files d : dir_files (prune d) = dir_files d.
Proof. destruct d. reflexivity. Qed.

Lemma kept_dirs_prune d :
  kept_dirs (dir_dirs (prune d)) = map prune (kept_dirs (dir_dirs d)).
Proof.
  destruct d as [n ds fs]. unfold kept_dirs. cbn [prune dir_dirs].
  rewrite filter_idempotent.
  rewrite (filter_map_key
             (fun d' => negb (py_in (dir_name d') IGNORE_DIRS)) prune)
    by (intro x; rewrite prune_name; reflexivity).
  apply sort_by_map, prune_name.
Qed.

Lemma fold_left_map {A B C : Type} (g : A -> C -> A) (h : B -> C) l :
  forall a, fold_left g (map h l) a = fold_left (fun a' x => g a' (h x)) l a.
Proof. induction l as [|x l IH]; intro a; simpl; auto. Qed.

Lemma height_prune d : (height (prune d) <= height d)%nat.
Proof.
  revert d. fix IH 1. intros [n ds fs]. cbn [prune height].
  apply le_n_S.
  induction ds as [|d' ds IHds]; cbn [map filter fold_right]; [lia|].
  destruct (negb (py_in (dir_name (prune d')) IGNORE_DIRS));
    cbn [fold_right].
  - specialize (IH d'). lia.
  - lia.
Qed.

Section PruneExtras.

Variable uni_isalnum : N -> bool.

Lemma walk_prune fuel : forall start root d st,
  walk uni_isalnum fuel start root (prune d) st
  = walk uni_isalnum fuel start root d st.
Proof.
  induction fuel as [|fuel IH]; intros start root d st; [reflexivity|].
  cbn [walk]. rewrite kept_dirs_prune, prune_files, fold_left_map.
  apply fold_left_ext. intros d' st' _. rewrite prune_name. apply IH.
Qed.

(** X13: a directory that [IGNORE_DIRS] names is left out with all that
    lies below it, at every depth: the result is that of the tree without
    these directories. *)
Theorem X13_ignored_directories_pruned (start_path : pystr) (d : dir_entry) :
  generate_tree uni_isalnum start_path (Some (prune d))
  = generate_tree uni_isalnum start_path (Some d).
Proof.
  unfold generate_tree.
  rewrite (walk_fuel uni_isalnum (height (prune d)) (height d))
    by (try apply height_prune; lia).
  rewrite walk_prune. reflexivity.
Qed.

Lemma visit_file_call sub f st :
  extract_calls (visit_file uni_isalnum sub f st) = extract_calls st
  \/ exists call,
       extract_calls (visit_file uni_isalnum sub f st)
       = extract_calls st ++ [call]
       /\ call_of call f.
Proof.
  unfold visit_file.
  destruct (py_in (splitext_ext (f_name f)) IGNORE_EXTS) eqn:Hext;
    [left; reflexivity|].
  unfold try_extract.
  destruct (f_getsize f) as [size|] eqn:Hsize;
    [|left; simpl; apply app_nil_r].
  destruct (N.ltb_spec size MAX_FILE_SIZE_BYTES) as [Hlt|];
    [|left; simpl; apply app_nil_r].
  destruct (f_read f) as [content|] eqn:Hread;
    [|left; simpl; apply app_nil_r].
  destruct (get_language (splitext_ext (f_name f))) as [[|x l]|] eqn:Hl;
    try (left; simpl; apply app_nil_r).
  right. exists (content, x :: l). split.
  - destruct (extract_functions uni_isalnum content (x :: l)); reflexivity.
  - unfold call_of. cbn [fst snd]. repeat split; try assumption.
    + exists size. split; [exact Hsize | exact Hlt].
    + apply (LANGUAGE_MAP_patterns _ _ Hl).
Qed.

(** X11: [generate_tree] calls [extract_functions] only on the content of
    a file of the tree that could be read, whose size is below
    [MAX_FILE_SIZE_BYTES], and with the language of its extension, which
    always has a pattern that compiles: the early return of line 66 and
    [re.error] never occur in these calls. *)
Theorem X11_calls_come_from_files
    (fuel : nat) (start_path root : pystr) (d : dir_entry) :
  Forall (fun call => exists f, In f (all_files d) /\ call_of call f)
    (extract_calls (walk uni_isalnum fuel start_path root d empty_walk)).
Proof.
  apply (walk_inv uni_isalnum (fun f => In f (all_files d))
           (fun st => Forall (fun call => exists f, In f (all_files d)
                                 /\ call_of call f)
                             (extract_calls st)) start_path).
  - intros root' f st Hf HQ.
    destruct (visit_file_call
                (str_times (py "  ") (level_of start_path root' + 1)) f st)
      as [-> | (call & -> & Hcall)]; [exact HQ|].
    apply Forall_app. split; [exact HQ|].
    constructor; [|constructor]. eauto.
  - intros root' st _ HQ. exact HQ.
  - apply Forall_forall. auto.
  - constructor.
Qed.

End PruneExtras.

(** ** The level of a directory *)













(** Without the proviso the level falls short: below [/a] the directory
    [/a/x/a] is at depth 2 and gets level 1. *)
Example level_of_repeated_start :
  level_of (py "/a") (py "/a/x/a") = 1%nat.
Proof. reflexivity. Qed.

(** ** Scanning the root of the file system *)

Lemma replace_scan_char_gone c s :
  count_occ N.eq_dec (replace_scan [c] [] 0 s) c = 0%nat.
Proof.
  induction s as [|x s IH]; [reflexivity|].
  cbn [replace_scan strip_prefix length Nat.sub app].
  destruct (N.eqb_spec c x) as [->|Hne]; [exact IH|].
  rewrite count_occ_cons_neq by congruence. exact IH.
Qed.

Lemma level_of_sep root : level_of os_sep root = 0%nat.
Proof.
  unfold level_of, str_count, str_replace, os_sep.
  cbn [py map list_ascii_of_string].
  rewrite count_scan_char. apply replace_scan_char_gone.
Qed.

Section RootExtras.

Variable uni_isalnum : N -> bool.

(** X15: when the scanned directory is [/], every directory is at level 0:
    the listing has no folder line at all, and every line is the line of a
    file, indented by two blanks, at whatever depth the file lies. *)
Theorem X15_scanning_root_is_flat (top : option dir_entry) :
  Forall (fun line => exists f, line = tree_line (py "  ") f)
    (fst (generate_tree uni_isalnum os_sep top)).
Proof.
  unfold generate_tree. cbn [fst]. destruct top as [d|]; [|constructor].
  apply (walk_inv uni_isalnum (fun _ => True)
           (fun st => Forall (fun line => exists f,
                                  line = tree_line (py "  ") f)
                             (tree_lines st)) os_sep).
  - intros root f st _ HQ. rewrite level_of_sep.
    change (str_times (py "  ") (0 + 1)) with (py "  ").
    destruct (py_in (splitext_ext (f_name f)) IGNORE_EXTS) eqn:E.
    + rewrite (visit_file_ignored _ _ _ _ E). exact HQ.
    + rewrite (visit_file_listed _ _ _ _ E).
      apply Forall_app. split; [exact HQ|].
      constructor; [|constructor]. eauto.
  - intros root st Hlevel. rewrite level_of_sep in Hlevel. lia.
  - apply Forall_forall. intros; exact I.
  - constructor.
Qed.

End RootExtras.

(** ** The order of the listing *)

Lemma pystr_leb_refl a : pystr_leb a a = true.
Proof.
  induction a as [|x a IH]; simpl; [reflexivity|].
  rewrite N.ltb_irrefl. exact IH.
Qed.

Lemma pystr_leb_total a : forall b,
  pystr_leb a b = false -> pystr_leb b a = true.
Proof.
  induction a as [|x a IH]; intros [|y b]; simpl; try discriminate; auto.
  destruct (N.ltb_spec x y); [discriminate|].
  destruct (N.ltb_spec y x); [reflexivity|]. apply IH.
Qed.

Lemma pystr_leb_antisym a : forall b,
  pystr_leb a b = true -> pystr_leb b a = true -> a = b.
Proof.
  induction a as [|x a IH]; intros [|y b]; simpl; try discriminate; auto.
  destruct (N.ltb_spec x y), (N.ltb_spec y x); try discriminate; try lia.
  intros H1 H2. f_equal; [lia | apply IH; assumption].
Qed.

Lemma pystr_leb_trans a : forall b c,
  pystr_leb a b = true -> pystr_leb b c = true -> pystr_leb a c = true.
Proof.
  induction a as [|x a IH]; intros [|y b] [|z c]; simpl;
    try discriminate; auto.
  destruct (N.ltb_spec x y), (N.ltb_spec y x), (N.ltb_spec y z),
    (N.ltb_spec z y), (N.ltb_spec x z), (N.ltb_spec z x);
    try discriminate; try lia; auto.
  apply IH.
Qed.

Section SortedFacts.

Variable T : Type.
Variable key : T -> pystr.

Lemma insert_sorted_perm x l : Permutation (insert_sorted key x l) (x :: l).
Proof.
  induction l as [|y l IH]; simpl; [reflexivity|].
  destruct (pystr_leb (key x) (key y)); [reflexivity|].
  rewrite IH. apply perm_swap.
Qed.

Lemma sort_by_perm l : Permutation (sort_by key l) l.
Proof.
  induction l as [|x l IH]; simpl; [reflexivity|].
  rewrite insert_sorted_perm, IH. reflexivity.
Qed.

Lemma insert_sorted_sorted x l :
  sorted_by key l -> sorted_by key (insert_sorted key x l).
Proof.
  unfold sorted_by. induction 1 as [|y l Hl IH Hy]; simpl.
  - constructor; constructor.
  - destruct (pystr_leb (key x) (key y)) eqn:E.
    + constructor; [constructor; assumption|].
      constructor; [exact E|].
      eapply Forall_impl; [|exact Hy].
      intros z Hz. eapply pystr_leb_trans; eassumption.
    + constructor; [exact IH|].
      apply Forall_forall. intros z Hz.
      apply insert_sorted_In in Hz. destruct Hz as [->|Hz].
      * apply pystr_leb_total, E.
      * rewrite Forall_forall in Hy. apply Hy, Hz.
Qed.

Lemma sort_by_sorted l : sorted_by key (sort_by key l).
Proof.
  induction l as [|x l IH]; simpl; [constructor|].
  apply insert_sorted_sorted, IH.
Qed.

Lemma key_injective l x y :
  NoDup (map key l) -> In x l -> In y l -> key x = key y -> x = y.
Proof.
  induction l as [|z l IH]; simpl; [intros _ []|].
  intros Hnd Hx Hy Hk. inversion Hnd as [|? ? Hz Hl]; subst.
  destruct Hx as [->|Hx], Hy as [->|Hy]; auto.
  - exfalso. apply Hz. rewrite Hk. apply in_map, Hy.
  - exfalso. apply Hz. rewrite <- Hk. apply in_map, Hx.
Qed.

(** Two ascending lists with the same elements, all of different names,
    are the same list. *)
Lemma sorted_unique l1 : forall l2,
  sorted_by key l1 -> sorted_by key l2 -> Permutation l1 l2 ->
  NoDup (map key l1) -> l1 = l2.
Proof.
  unfold sorted_by.
  induction l1 as [|x t1 IH]; intros l2 H1 H2 Hp Hnd.
  - apply Permutation_nil in Hp. congruence.
  - destruct l2 as [|y t2];
      [apply Permutation_sym, Permutation_nil in Hp; discriminate|].
    inversion H1 as [|? ? Ht1 Hx]; subst.
    inversion H2 as [|? ? Ht2 Hy]; subst.
    rewrite Forall_forall in Hx, Hy.
    assert (Hin_y : In y (x :: t1)).
    { eapply Permutation_in; [apply Permutation_sym, Hp | left; reflexivity]. }
    assert (Hin_x : In x (y :: t2)).
    { eapply Permutation_in; [exact Hp | left; reflexivity]. }
    assert (Hxy : pystr_leb (key x) (key y) = true).
    { destruct Hin_y as [<-|Hin]; [apply pystr_leb_refl | apply Hx, Hin]. }
    assert (Hyx : pystr_leb (key y) (key x) = true).
    { destruct Hin_x as [<-|Hin]; [apply pystr_leb_refl | apply Hy, Hin]. }
    assert (E : x = y).
    { apply (key_injective (x :: t1)); auto; [left; reflexivity|].
      apply pystr_leb_antisym; assumption. }
    subst y. f_equal.
    apply IH; auto.
    + eapply Permutation_cons_inv, Hp.
    + simpl in Hnd. inversion Hnd; assumption.
Qed.

Lemma sort_by_permutation l l' :
  Permutation l l' -> NoDup (map key l) -> sort_by key l = sort_by key l'.
Proof.
  intros Hp Hnd. apply sorted_unique.
  - apply sort_by_sorted.
  - apply sort_by_sorted.
  - rewrite !sort_by_perm. exact Hp.
  - eapply Permutation_NoDup; [|exact Hnd].
    apply Permutation_map, Permutation_sym, sort_by_perm.
Qed.

Lemma filter_permutation (p : T -> bool) l l' :
  Permutation l l' -> Permutation (filter p l) (filter p l').
Proof.
  induction 1 as [|x l l' Hp IH|x y l|l l' l'' H1 IH1 H2 IH2]; simpl.
  - constructor.
  - destruct (p x); [constructor|]; exact IH.
  - destruct (p x), (p y); try reflexivity. apply perm_swap.
  - etransitivity; eassumption.
Qed.

Lemma filter_NoDup_keys (p : T -> bool) l :
  NoDup (map key l) -> NoDup (map key (filter p l)).
Proof.
  induction l as [|x l IH]; simpl; [auto|].
  intro Hnd. inversion Hnd as [|? ? Hx Hl]; subst.
  destruct (p x); simpl; [|apply IH, Hl].
  constructor; [|apply IH, Hl].
  intro Hin. apply Hx. apply in_map_iff in Hin.
  destruct Hin as (z & Hz & Hin). apply filter_In in Hin.
  rewrite <- Hz. apply in_map, Hin.
Qed.

End SortedFacts.

Section OrderExtras.

Variable uni_isalnum : N -> bool.

Lemma walk_same_listing fuel start root d d' st :
  kept_dirs (dir_dirs d) = kept_dirs (dir_dirs d') ->
  sort_by f_name (dir_files d) = sort_by f_name (dir_files d') ->
  walk uni_isalnum fuel start root d st
  = walk uni_isalnum fuel start root d' st.
Proof.
  intros Hd Hf. destruct fuel as [|fuel]; [reflexivity|].
  cbn [walk]. rewrite Hd, Hf. reflexivity.
Qed.

(** X16: the result does not depend on the order in which a directory
    lists its entries: two listings of the same directories and files,
    all of different names, give the same tree lines and the same
    analysis. *)
Theorem X16_listing_order_irrelevant
    (start_path n n' : pystr) (ds ds' : list dir_entry)
    (fs fs' : list file_entry) :
  Permutation ds ds' -> Permutation fs fs' ->
  NoDup (map dir_name ds) -> NoDup (map f_name fs) ->
  generate_tree uni_isalnum start_path (Some (Dir n ds fs))
  = generate_tree uni_isalnum start_path (Some (Dir n' ds' fs')).
Proof.
  intros Hds Hfs Hnd Hnf. unfold generate_tree.
  set (h := Nat.max (height (Dir n ds fs)) (height (Dir n' ds' fs'))).
  rewrite (walk_fuel uni_isalnum (height (Dir n ds fs)) h) by lia.
  rewrite (walk_fuel uni_isalnum (height (Dir n' ds' fs')) h) by lia.
  rewrite (walk_same_listing h start_path start_path
             (Dir n ds fs) (Dir n' ds' fs')); [reflexivity| |].
  - unfold kept_dirs. cbn [dir_dirs]. apply sort_by_permutation.
    + apply filter_permutation, Hds.
    + apply filter_NoDup_keys, Hnd.
  - cbn [dir_files]. apply sort_by_permutation; assumption.
Qed.

End OrderExtras.

(** ** [main] *)

Section MainExtras.

Variable uni_isalnum : N -> bool.

(** X17: [main] scans the directory of its first argument, or the current
    directory without one.  When the path does not exist it prints the
    error line and exits with status 1.  Otherwise it
    prints the report of what [generate_tree] returns and exits normally;
    every table of the report has between 1 and 25 rows, and every row is
    one line whose cell of arguments has at most 50 characters. *)
Theorem X17_main_outcome (env : environment) :
  let root_dir :=
    abspath env (if (1 <? length (argv env))%nat then nth 1 (argv env) []
                 else getcwd env) in
  if path_exists env root_dir
  then exists tree analysis,
         generate_tree uni_isalnum root_dir (directory_at env root_dir)
         = (tree, analysis)
         /\ main uni_isalnum env = (report root_dir tree analysis, None)
         /\ Forall entry_bounded analysis
         /\ forall fi sg,
              In fi analysis -> In sg (fi_functions fi) ->
              one_line (render_row sg)
              /\ (length (inputs_cell (sig_args sg)) <= 50)%nat
  else main uni_isalnum env
       = ([ py "Error: Directory '" ++ root_dir ++ py "' does not exist." ],
          Some 1).
Proof.
  intro root_dir. unfold main. fold root_dir.
  destruct (path_exists env root_dir); [|reflexivity].
  cbn [negb].
  pose proof (generate_tree_bounded uni_isalnum root_dir
                (directory_at env root_dir)) as Hb.
  assert (Hrows : forall fi sg,
             In fi (snd (generate_tree uni_isalnum root_dir
                           (directory_at env root_dir))) ->
             In sg (fi_functions fi) -> one_line (render_row sg)).
  { destruct (directory_at env root_dir) as [d|]; [|intros fi sg []].
    intros fi sg Hfi Hsg.
    pose proof (generate_tree_entries uni_isalnum root_dir d) as He.
    rewrite Forall_forall in He.
    destruct (He fi Hfi)
      as (f & _ & _ & _ & size & content & lang & sigs
          & _ & _ & _ & _ & Hex & _ & Hfn).
    rewrite Hfn in Hsg. apply In_firstn in Hsg.
    apply (extracted_row_one_line uni_isalnum _ _ _ _ Hex Hsg). }
  destruct (generate_tree uni_isalnum root_dir (directory_at env root_dir))
    as [tree analysis].
  exists tree, analysis. cbn [snd] in Hb, Hrows.
  split; [reflexivity|]. split; [reflexivity|]. split; [exact Hb|].
  intros fi sg Hfi Hsg.
  split; [apply (Hrows fi sg Hfi Hsg) | apply inputs_cell_length].
Qed.

End MainExtras.

(** ** Witnesses of the further properties *)

Lemma X1_one_signature_witness :
  dict_get PATTERNS (py "c") = Some (pattern_of (py "c"))
  /\ extract_functions is_ascii_alnum (py "int add(int a, int b) {") (py "c")
     = Returns [add_signature].
Proof.
  assert (Hp : dict_get PATTERNS (py "c") = Some (pattern_of (py "c")))
    by reflexivity.
  split; [exact Hp|].
  rewrite (X1_one_signature_per_match is_ascii_alnum _ _ _ Hp).
  vm_compute. reflexivity.
Defined.

Lemma X4_no_return_witness :
  let sg := {| sig_name := py "add";
               sig_args := py "a: Int, b: Int";
               sig_return := [] |} in
  py_in (py "kotlin") NO_RETURN_LANGS = true
  /\ extract_functions is_ascii_alnum kotlin_content (py "kotlin")
     = Returns [sg]
  /\ In sg [sg]
  /\ sig_return sg = [].
Proof.
  intro sg.
  assert (Hl : py_in (py "kotlin") NO_RETURN_LANGS = true) by reflexivity.
  assert (Hex : extract_functions is_ascii_alnum kotlin_content (py "kotlin")
                = Returns [sg]) by (vm_compute; reflexivity).
  assert (Hin : In sg [sg]) by (left; reflexivity).
  split; [exact Hl|]. split; [exact Hex|]. split; [exact Hin|].
  exact (X4_no_return_type is_ascii_alnum _ _ _ sg Hl Hex Hin).
Defined.

Lemma X5_fields_tidy_witness :
  let engine := fun p c => failing_after 1 (finditer is_ascii_alnum p c) in
  extract_functions_with engine (py "int add(int a, int b) {") (py "c")
  = Returns [add_signature]
  /\ Forall tidy [add_signature].
Proof.
  intro engine.
  assert (Hex : extract_functions_with engine
                  (py "int add(int a, int b) {") (py "c")
                = Returns [add_signature]) by (vm_compute; reflexivity).
  split; [exact Hex|].
  exact (X5_fields_tidy engine _ _ _ Hex).
Defined.

Lemma X6_row_witness :
  extract_functions is_ascii_alnum (py "int add(int a, int b) {") (py "c")
  = Returns [add_signature]
  /\ In add_signature [add_signature]
  /\ one_line (render_row add_signature).
Proof.
  assert (Hex : extract_functions is_ascii_alnum
                  (py "int add(int a, int b) {") (py "c")
                = Returns [add_signature]) by (vm_compute; reflexivity).
  assert (Hin : In add_signature [add_signature]) by (left; reflexivity).
  split; [exact Hex|]. split; [exact Hin|].
  exact (X6_row_is_one_line is_ascii_alnum _ _ _ _ Hex Hin).
Defined.

Lemma X12_entries_witness :
  let fi := {| fi_path := py "src/add.c";
               fi_functions := [add_signature] |} in
  In fi (snd (generate_tree is_ascii_alnum (py "/home/u/proj")
                (Some sample_tree)))
  /\ exists f, In f (all_files sample_tree)
               /\ entry_of is_ascii_alnum fi f.
Proof.
  intro fi.
  assert (Hin : In fi (snd (generate_tree is_ascii_alnum (py "/home/u/proj")
                              (Some sample_tree)))).
  { assert (E : snd (generate_tree is_ascii_alnum (py "/home/u/proj")
                       (Some sample_tree)) = [fi])
      by (vm_compute; reflexivity).
    rewrite E. left. reflexivity. }
  split; [exact Hin|].
  exact (X12_entries_come_from_files is_ascii_alnum _ _ _ Hin).
Defined.

Lemma X16_listing_order_witness :
  let ds := [ Dir (py "src") [] [small_c_file];
              Dir (py "node_modules") [] [long_c_file] ] in
  let ds' := [ Dir (py "node_modules") [] [long_c_file];
               Dir (py "src") [] [small_c_file] ] in
  Permutation ds ds'
  /\ NoDup (map dir_name ds)
  /\ NoDup (map f_name [notes_file])
  /\ generate_tree is_ascii_alnum (py "/home/u/proj") (Some sample_tree)
     = generate_tree is_ascii_alnum (py "/home/u/proj")
         (Some sample_tree_reordered).
Proof.
  intros ds ds'.
  assert (Hp : Permutation ds ds') by apply perm_swap.
  assert (Hnd : NoDup (map dir_name ds)).
  { repeat constructor; simpl; intuition discriminate. }
  assert (Hnf : NoDup (map f_name [notes_file])).
  { repeat constructor; simpl; intuition. }
  split; [exact Hp|]. split; [exact Hnd|]. split; [exact Hnf|].
  exact (X16_listing_order_irrelevant is_ascii_alnum (py "/home/u/proj")
           (py "proj") (py "proj") ds ds' [notes_file] [notes_file]
           Hp (Permutation_refl _) Hnd Hnf).
Defined.

(** ** Names that begin with a dot *)

Lemma last_dot_none s :
  count_occ N.eq_dec s (ch ".") = 0%nat -> last_dot s = None.
Proof.
  induction s as [|c s IH]; [reflexivity|].
  intro H0. cbn [last_dot].
  destruct (N.eq_dec c (ch ".")) as [->|Hne].
  - rewrite count_occ_cons_eq in H0 by reflexivity. discriminate.
  - rewrite count_occ_cons_neq in H0 by exact Hne.
    rewrite (IH H0). apply N.eqb_neq in Hne. rewrite Hne. reflexivity.
Qed.

Lemma splitext_ext_dotfile stem :
  count_occ N.eq_dec stem (ch ".") = 0%nat ->
  splitext_ext (ch "." :: stem) = [].
Proof.
  intro H0. unfold splitext_ext. cbn [last_dot].
  rewrite (last_dot_none _ H0), N.eqb_refl.
  unfold consumed. rewrite Nat.sub_diag. reflexivity.
Qed.

Section DotfileExtras.

Variable uni_isalnum : N -> bool.

(** X18: a file whose name begins with a dot and has no other dot, such as
    [.gitignore] or [.DS_Store], has no extension for [os.path.splitext]:
    it is listed in the tree and never analysed, also when [IGNORE_EXTS]
    holds its name. *)
Theorem X18_dotfiles_listed
    (subindent stem : pystr) (f : file_entry) (st : walk_state) :
  f_name f = ch "." :: stem ->
  count_occ N.eq_dec stem (ch ".") = 0%nat ->
  let st' := visit_file uni_isalnum subindent f st in
  tree_lines st' = tree_lines st ++ [tree_line subindent f]
  /\ files_data st' = files_data st
  /\ extract_calls st' = extract_calls st.
Proof.
  intros Hname H0 st'. subst st'. unfold visit_file.
  rewrite Hname, (splitext_ext_dotfile _ H0).
  change (py_in [] IGNORE_EXTS) with false.
  change (get_language []) with (@None pystr).
  cbv iota. unfold try_extract.
  destruct (f_getsize f) as [size|];
    [|cbn; rewrite app_nil_r; auto].
  destruct (size <? MAX_FILE_SIZE_BYTES);
    [|cbn; rewrite app_nil_r; auto].
  destruct (f_read f); cbn; rewrite app_nil_r; auto.
Qed.

End DotfileExtras.

Lemma X18_dotfiles_witness :
  f_name ds_store_file = ch "." :: py "DS_Store"
  /\ py_in (py ".DS_Store") IGNORE_EXTS = true
  /\ tree_lines (visit_file is_ascii_alnum (py "  ") ds_store_file empty_walk)
     = [py "  " ++ [page_emoji; ch " "] ++ py ".DS_Store"].
Proof.
  assert (Hname : f_name ds_store_file = ch "." :: py "DS_Store")
    by reflexivity.
  split; [exact Hname|]. split; [reflexivity|].
  exact (proj1 (X18_dotfiles_listed is_ascii_alnum (py "  ") (py "DS_Store")
                  ds_store_file empty_walk Hname eq_refl)).
Defined.
